(** * Custom gap fill actions: the QTM script [tools/custom_gap_fill_actions.py]

    The script is glue between a static list of gap fill definitions and
    the scripting interface of the host application.  Its observable
    behaviour is the sequence of host calls it makes, the exceptions it
    lets escape, and what it does to its own objects.  The embedding
    therefore has three layers:

    - a small Python object store (values, lists and dicts on a heap), so
      that aliasing between [list_of_definitions] and the local [settings]
      is visible;
    - the host interface as a record of functions over an abstract host
      state, each call recorded in a trace together with what the host
      answered;
    - the three functions of the script in a state-and-exception monad
      over that world. *)

From Stdlib Require Import ZArith QArith Lia Ascii.
From stdpp Require Import base option list gmap strings pretty fin_maps.

Local Open Scope Z_scope.

(** ** Python values and objects *)

Module Py.

(** Heap addresses of mutable objects. *)
Abbreviation loc := nat.

(** Immutable values are carried directly; lists and dicts are referred
    to by address, as Python does. *)
Inductive value :=
| VNone
| VBool (b : bool)
| VInt (n : Z)
| VFloat (x : Q)
| VStr (s : string)
| VRef (l : loc).

(** Mutable objects.  Dict keys are strings, the only keys the script
    uses. *)
Inductive object :=
| OList (items : list value)
| ODict (entries : gmap string value).

Abbreviation heap := (list object).

Inductive exn :=
| IndexError
| KeyError (k : string)
| TypeError
| AttributeError
| RecursionError
| SystemError
| RuntimeError (msg : string).

Inductive result (A : Type) :=
| Ok (a : A)
| Raise (e : exn).
Arguments Ok {A} a.
Arguments Raise {A} e.

Definition is_ok {A} (r : result A) : bool :=
  match r with Ok _ => true | Raise _ => false end.

(** [l[i]] on a Python sequence: negative indices count from the end. *)
Definition index {A} (l : list A) (i : Z) : option A :=
  let n := Z.of_nat (length l) in
  if (0 <=? i) && (i <? n) then l !! Z.to_nat i
  else if (- n <=? i) && (i <? 0) then l !! Z.to_nat (n + i)
  else None.

Definition char_at (s : string) (i : Z) : option string :=
  let n := Z.of_nat (String.length s) in
  let pick k := option_map (fun c => String c EmptyString) (String.get k s) in
  if (0 <=? i) && (i <? n) then pick (Z.to_nat i)
  else if (- n <=? i) && (i <? 0) then pick (Z.to_nat (n + i))
  else None.

(** [x[i]] with an integer subscript. *)
Definition getitem_int (h : heap) (x : value) (i : Z) : result value :=
  match x with
  | VRef l =>
      match h !! l with
      | Some (OList items) =>
          match index items i with
          | Some v => Ok v
          | None => Raise IndexError
          end
      | Some (ODict _) => Raise (KeyError (pretty i))
      | None => Raise SystemError
      end
  | VStr s =>
      match char_at s i with
      | Some c => Ok (VStr c)
      | None => Raise IndexError
      end
  | _ => Raise TypeError
  end.

(** [x["k"]] with a string subscript. *)
Definition getitem (h : heap) (x : value) (k : string) : result value :=
  match x with
  | VRef l =>
      match h !! l with
      | Some (ODict entries) =>
          match entries !! k with
          | Some v => Ok v
          | None => Raise (KeyError k)
          end
      | Some (OList _) => Raise TypeError
      | None => Raise SystemError
      end
  | _ => Raise TypeError
  end.

(** ["k" in x.keys()]: only dicts have a [keys] method. *)
Definition in_keys (h : heap) (x : value) (k : string) : result bool :=
  match x with
  | VRef l =>
      match h !! l with
      | Some (ODict entries) => Ok (bool_decide (is_Some (entries !! k)))
      | Some (OList _) => Raise AttributeError
      | None => Raise SystemError
      end
  | _ => Raise AttributeError
  end.

(** [x["k"] = v]: the object at the address of [x] is updated in place. *)
Definition setitem (h : heap) (x : value) (k : string) (v : value)
  : result heap :=
  match x with
  | VRef l =>
      match h !! l with
      | Some (ODict entries) => Ok (<[l := ODict (<[k := v]> entries)]> h)
      | Some (OList _) => Raise TypeError
      | None => Raise SystemError
      end
  | _ => Raise TypeError
  end.

(** [len(x)]. *)
Definition len (h : heap) (x : value) : result Z :=
  match x with
  | VRef l =>
      match h !! l with
      | Some (OList items) => Ok (Z.of_nat (length items))
      | Some (ODict entries) => Ok (Z.of_nat (size entries))
      | None => Raise SystemError
      end
  | VStr s => Ok (Z.of_nat (String.length s))
  | _ => Raise TypeError
  end.

(** [x == "s"] against a string literal. *)
Definition eq_str (x : value) (s : string) : bool :=
  match x with
  | VStr t => String.eqb t s
  | _ => false
  end.

(** [x in ["a", "b", ...]] against a list of string literals. *)
Definition in_strs (x : value) (ss : list string) : bool :=
  existsb (eq_str x) ss.

(** [range(n)]. *)
Definition range (n : Z) : list Z :=
  List.map Z.of_nat (seq 0 (Z.to_nat n)).

(** *** [copy.deepcopy]

    The standard library function, for the object kinds above: immutable
    values are returned as they are; for a list or dict a new empty
    object is allocated first and then filled with the copies of the
    members, as [_deepcopy_list] and [_deepcopy_dict] do.  [depth] is the
    nesting depth Python's recursion limit leaves room for; running out
    of it is Python's [RecursionError].  The memo table of the library
    function (which keeps sharing inside the copied object and lets it
    copy cyclic objects) is not modelled. *)

Fixpoint copy_values (cp : value -> heap -> result (value * heap))
    (vs : list value) (h : heap) : result (list value * heap) :=
  match vs with
  | [] => Ok ([], h)
  | v :: vs =>
      match cp v h with
      | Raise e => Raise e
      | Ok (v', h1) =>
          match copy_values cp vs h1 with
          | Raise e => Raise e
          | Ok (vs', h2) => Ok (v' :: vs', h2)
          end
      end
  end.

Fixpoint deepcopy (depth : nat) (x : value) (h : heap)
  : result (value * heap) :=
  match x with
  | VRef l =>
      match depth with
      | O => Raise RecursionError
      | S d =>
          match h !! l with
          | Some (OList items) =>
              let y := length h in
              match copy_values (deepcopy d) items (h ++ [OList []]) with
              | Raise e => Raise e
              | Ok (items', h1) => Ok (VRef y, <[y := OList items']> h1)
              end
          | Some (ODict entries) =>
              let y := length h in
              let kvs := map_to_list entries in
              match copy_values (deepcopy d) kvs.*2 (h ++ [ODict ∅]) with
              | Raise e => Raise e
              | Ok (vals', h1) =>
                  Ok (VRef y,
                      <[y := ODict (list_to_map (zip kvs.*1 vals'))]> h1)
              end
          | None => Raise SystemError
          end
      end
  | _ => Ok (x, h)
  end.

(** *** Properties of heaps used in the statements *)

(** Every object of [h] is still there, unchanged, in [h']. *)
Definition heap_kept (h h' : heap) : Prop :=
  forall l o, h !! l = Some o -> h' !! l = Some o.

(** [v] is a finite nested value of [h]: no reference leaves the heap and
    containers nest at most [n] deep. *)
Fixpoint well_formed (n : nat) (h : heap) (v : value) {struct n} : bool :=
  match v with
  | VRef l =>
      match n with
      | O => false
      | S n =>
          match h !! l with
          | Some (OList items) => forallb (well_formed n h) items
          | Some (ODict entries) =>
              forallb (well_formed n h) (map_to_list entries).*2
          | None => false
          end
      end
  | _ => true
  end.

(** [v'] in [h'] has the same content as [v] in [h]: immutable values are
    equal, lists agree member by member, dicts key by key.  A container
    of [v'] lives at an address from [lo] on, and its members beyond
    itself. *)
Fixpoint copy_of (n : nat) (lo : nat) (h h' : heap) (v v' : value)
    {struct n} : Prop :=
  match v with
  | VRef l =>
      match v' with
      | VRef l' =>
          (lo <= l')%nat /\
          match n with
          | O => False
          | S n =>
              match h !! l, h' !! l' with
              | Some (OList a), Some (OList b) =>
                  Forall2 (copy_of n (S l') h h') a b
              | Some (ODict a), Some (ODict b) =>
                  forall k,
                    option_Forall2 (copy_of n (S l') h h') (a !! k) (b !! k)
              | _, _ => False
              end
          end
      | _ => False
      end
  | _ => v' = v
  end.

End Py.
Import Py.

(** ** The host interface *)

(** A gap range as returned by [data_3d.get_gap_ranges]; the script hands
    it back to the host without looking inside. *)
Record gap_range := { range_start : Z; range_end : Z }.

(** The ten execute functions are the closures [lambda: _gap_fill_def(i)];
    a closure is determined by the index it captured. *)
Inductive closure :=
| Lambda_gap_fill_def (def_id : Z).

(** One host call, with its arguments and the host's answer. *)
Inductive event :=
| Efind_trajectory (name : value) (r : result value)
| Eget_gap_ranges (id : value) (r : result (list gap_range))
| Efill_trajectory (id method : value) (gap : gap_range) (settings : value)
    (r : result unit)
| Ewrite (msg : string)
| Eadd_command (name : string)
| Eset_command_execute_function (name : string) (f : closure)
| Einsert_menu_submenu (parent : value) (label : string) (r : value)
| Einsert_menu_button (parent label : value) (command : string)
| Eget_commands (kind : string) (r : list string).

(** Reading traces. *)
Definition is_fill (e : event) : bool :=
  match e with Efill_trajectory _ _ _ _ _ => true | _ => false end.

Definition is_find (e : event) : bool :=
  match e with Efind_trajectory _ _ => true | _ => false end.

Definition is_lookup (e : event) : bool :=
  match e with
  | Efind_trajectory _ _ | Eget_gap_ranges _ _ => true
  | _ => false
  end.

Definition is_gui (e : event) : bool :=
  match e with
  | Ewrite _ | Eadd_command _ | Eset_command_execute_function _ _
  | Einsert_menu_submenu _ _ _ | Einsert_menu_button _ _ _
  | Eget_commands _ _ => true
  | _ => false
  end.

Definition fill_failed (e : event) : bool :=
  match e with Efill_trajectory _ _ _ _ (Raise _) => true | _ => false end.

Definition fill_calls (t : list event) : list event := List.filter is_fill t.

Definition filled_gaps (t : list event) : list gap_range :=
  omap (fun e => match e with
                 | Efill_trajectory _ _ gap _ _ => Some gap
                 | _ => None
                 end) t.

Definition find_names (t : list event) : list value :=
  omap (fun e => match e with Efind_trajectory n _ => Some n | _ => None end) t.

Definition written (t : list event) : list string :=
  omap (fun e => match e with Ewrite msg => Some msg | _ => None end) t.

Definition buttons (t : list event) : list event :=
  List.filter
    (fun e => match e with Einsert_menu_button _ _ _ => true | _ => false end) t.

(** The fill call for gap [p.1] that the host answered with [p.2]. *)
Definition fill_event (id method settings : value)
    (p : gap_range * result unit) : event :=
  Efill_trajectory id method p.1 settings p.2.

(** The lookup of one of origin, line, plane: [None] when the key is
    absent, else the name looked up and the id the host returned. *)
Definition lookup_event (a : option (value * value)) : list event :=
  match a with
  | Some (name, id) => [Efind_trajectory name (Ok id)]
  | None => []
  end.

Definition put (k : string) (a : option (value * value))
    (d : gmap string value) : gmap string value :=
  match a with
  | Some (_, id) => <[k := id]> d
  | None => d
  end.

(** How the settings dict [d'] at address [y], as the host receives it,
    relates to the dict [ds] of the definition: the same keys; under
    origin, line and plane the id that the host returned for the name;
    under any other key a copy of the value. *)
Definition settings_passed (n : nat) (h h' : heap) (t : list event)
    (ds d' : gmap string value) (y : nat) : Prop :=
  forall k : string,
    match ds !! k with
    | None => d' !! k = None
    | Some v =>
        exists v' : value,
          copy_of n (S y) h h' v v' /\
          (if bool_decide (k ∈ ["origin"; "line"; "plane"])
           then exists id : value,
                  In (Efind_trajectory v' (Ok id)) t /\ d' !! k = Some id
           else d' !! k = Some v')
    end.

Definition gap_fill_command (i : Z) : string := "gap_fill_def_" +:+ pretty i.

Definition ten_commands : list string := List.map gap_fill_command (range 10).

(** One button per display name, in order, the first bound to command
    [i]. *)
Fixpoint button_list (sub : value) (i : Z) (names : list value)
  : list event :=
  match names with
  | [] => []
  | name :: names =>
      Einsert_menu_button sub name (gap_fill_command i) ::
      button_list sub (i + 1) names
  end.

(** The host functions the script calls, over a host state [H] of which
    nothing is known.  A host function sees the script's heap (it may
    read the objects it is handed) but does not write to it.  The calls
    into the trajectory data may raise; the terminal and menu calls are
    taken to return. *)
Record Host (H : Type) := {
  find_trajectory : heap -> value -> H -> result value * H;
  get_gap_ranges : heap -> value -> H -> result (list gap_range) * H;
  fill_trajectory :
    heap -> value -> value -> gap_range -> value -> H -> result unit * H;
  write : string -> H -> H;
  add_command : string -> H -> H;
  set_command_execute_function : string -> closure -> H -> H;
  insert_menu_submenu : heap -> value -> string -> H -> value * H;
  insert_menu_button : heap -> value -> value -> string -> H -> H;
  get_commands : string -> H -> list string * H
}.
Arguments find_trajectory {H} _ _ _ _.
Arguments get_gap_ranges {H} _ _ _ _.
Arguments fill_trajectory {H} _ _ _ _ _ _ _.
Arguments write {H} _ _ _.
Arguments add_command {H} _ _ _.
Arguments set_command_execute_function {H} _ _ _ _.
Arguments insert_menu_submenu {H} _ _ _ _ _.
Arguments insert_menu_button {H} _ _ _ _ _ _.
Arguments get_commands {H} _ _ _.

(** The world a script function runs in: the script's heap, its one
    global variable, the host state, and the host calls made so far
    (oldest first). *)
Record world (H : Type) := World {
  w_heap : heap;
  list_of_definitions : value;
  w_host : H;
  w_trace : list event
}.
Arguments World {H} _ _ _ _.
Arguments w_heap {H} _.
Arguments list_of_definitions {H} _.
Arguments w_host {H} _.
Arguments w_trace {H} _.

(** The calls made between [w] and a later world [w']. *)
Definition emitted {H} (w w' : world H) : list event :=
  drop (length (w_trace w)) (w_trace w').

(** The script's own state is untouched: the global still names the same
    object and every object that existed is unchanged. *)
Definition keeps {H} (w w' : world H) : Prop :=
  list_of_definitions w' = list_of_definitions w /\
  heap_kept (w_heap w) (w_heap w').

(** The definition dict that [list_of_definitions[i]] denotes, if it
    denotes one. *)
Definition definition_at {H} (w : world H) (i : Z)
  : option (gmap string value) :=
  match getitem_int (w_heap w) (list_of_definitions w) i with
  | Ok (VRef l) =>
      match w_heap w !! l with
      | Some (ODict d) => Some d
      | _ => None
      end
  | _ => None
  end.

(** ** A small host to run the script against

    Five trajectories, gaps that depend on the trajectory, and a fill
    routine that gives up on long gaps: enough to exercise every path of
    the script. *)
Module Stub.

Record state := State {
  user_commands : list string;
  menus : Z
}.

Definition trajectories : list string :=
  ["Q_WaistBack"; "Q_WaistLFront"; "Q_WaistRFront"; "Q_WaistL"; "Q_WaistR"].

Fixpoint position (n : string) (l : list string) (i : Z) : option Z :=
  match l with
  | [] => None
  | x :: l => if String.eqb x n then Some i else position n l (i + 1)
  end.

Definition find_trajectory (h : heap) (name : value) (s : state)
  : result value * state :=
  match name with
  | VStr n =>
      match position n trajectories 0 with
      | Some i => (Ok (VInt i), s)
      | None => (Ok VNone, s)
      end
  | _ => (Raise TypeError, s)
  end.

Definition get_gap_ranges (h : heap) (id : value) (s : state)
  : result (list gap_range) * state :=
  match id with
  | VInt 0 => (Ok [Build_gap_range 10 20; Build_gap_range 35 40], s)
  | VInt 1 => (Ok [], s)
  | VInt 2 => (Ok [Build_gap_range 7 9], s)
  | VInt _ => (Ok [], s)
  | _ => (Raise (RuntimeError "no such trajectory"), s)
  end.

Definition fill_trajectory (h : heap) (id method : value) (gap : gap_range)
    (settings : value) (s : state) : result unit * state :=
  if 8 <? range_end gap - range_start gap
  then (Raise (RuntimeError "gap too long"), s)
  else (Ok tt, s).

Definition host : Host state :=
  Build_Host state
    find_trajectory
    get_gap_ranges
    fill_trajectory
    (* write *)
    (fun _ s => s)
    (* add_command *)
    (fun name s => State (user_commands s ++ [name]) (menus s))
    (* set_command_execute_function *)
    (fun _ _ s => s)
    (* insert_menu_submenu *)
    (fun _ _ _ s => (VInt (menus s), State (user_commands s) (menus s + 1)))
    (* insert_menu_button *)
    (fun _ _ _ _ s => s)
    (* get_commands *)
    (fun kind s =>
       (if String.eqb kind "user" then user_commands s else [], s)).

Definition initial : world state :=
  World [] VNone (State [] 0) [].

End Stub.

(** ** The script *)

Section Script.

Context {H : Type}.
Variable qtm : Host H.

(** Python's recursion budget for [copy.deepcopy], and Python's [str()]
    for values whose text form the script has no part in (floats and
    containers). *)
Variable max_depth : nat.
Variable py_repr : heap -> value -> string.

(** State over the world, with Python exceptions. *)
Definition M (A : Type) : Type := world H -> result A * world H.

Definition ret {A} (a : A) : M A := fun w => (Ok a, w).

Definition raise {A} (e : exn) : M A := fun w => (Raise e, w).

Definition bind {A B} (c : M A) (k : A -> M B) : M B :=
  fun w =>
    match c w with
    | (Ok a, w') => k a w'
    | (Raise e, w') => (Raise e, w')
    end.

(** [try: c  except: h] with a bare [except]. *)
Definition try_except {A} (c : M A) (h : M A) : M A :=
  fun w =>
    match c w with
    | (Ok a, w') => (Ok a, w')
    | (Raise _, w') => h w'
    end.

Notation "x <- c ;; k" := (bind c (fun x => k))
  (at level 100, c at next level, right associativity).
Notation "c ;;; k" := (bind c (fun _ => k))
  (at level 100, right associativity).

(** Reading and writing the script's own objects. *)
Definition read {A} (f : heap -> result A) : M A :=
  fun w => (f (w_heap w), w).

Definition global_list_of_definitions : M value :=
  fun w => (Ok (list_of_definitions w), w).

Definition copy_deepcopy (x : value) : M value :=
  fun w =>
    match deepcopy max_depth x (w_heap w) with
    | Ok (y, h) =>
        (Ok y, World h (list_of_definitions w) (w_host w) (w_trace w))
    | Raise e => (Raise e, w)
    end.

Definition store (x : value) (k : string) (v : value) : M unit :=
  fun w =>
    match setitem (w_heap w) x k v with
    | Ok h => (Ok tt, World h (list_of_definitions w) (w_host w) (w_trace w))
    | Raise e => (Raise e, w)
    end.

(** [str(v)], as an f-string applies it. *)
Definition str (h : heap) (v : value) : string :=
  match v with
  | VStr s => s
  | VInt n => pretty n
  | VBool true => "True"
  | VBool false => "False"
  | VNone => "None"
  | _ => py_repr h v
  end.

(** Host calls: the host state moves on and the call is recorded. *)
Definition called (w : world H) (s : H) (e : event) : world H :=
  World (w_heap w) (list_of_definitions w) s (w_trace w ++ [e]).

Definition traj_find_trajectory (name : value) : M value :=
  fun w =>
    let '(r, s) := find_trajectory qtm (w_heap w) name (w_host w) in
    (r, called w s (Efind_trajectory name r)).

Definition data_3d_get_gap_ranges (id : value) : M (list gap_range) :=
  fun w =>
    let '(r, s) := get_gap_ranges qtm (w_heap w) id (w_host w) in
    (r, called w s (Eget_gap_ranges id r)).

Definition traj_fill_trajectory (id method : value) (gap : gap_range)
    (settings : value) : M unit :=
  fun w =>
    let '(r, s) :=
      fill_trajectory qtm (w_heap w) id method gap settings (w_host w) in
    (r, called w s (Efill_trajectory id method gap settings r)).

Definition trm_write (msg : string) : M unit :=
  fun w => (Ok tt, called w (write qtm msg (w_host w)) (Ewrite msg)).

Definition gui_add_command (name : string) : M unit :=
  fun w =>
    (Ok tt, called w (add_command qtm name (w_host w)) (Eadd_command name)).

Definition gui_set_command_execute_function (name : string) (f : closure)
  : M unit :=
  fun w =>
    (Ok tt,
     called w (set_command_execute_function qtm name f (w_host w))
       (Eset_command_execute_function name f)).

Definition gui_insert_menu_submenu (parent : value) (label : string)
  : M value :=
  fun w =>
    let '(r, s) := insert_menu_submenu qtm (w_heap w) parent label (w_host w) in
    (Ok r, called w s (Einsert_menu_submenu parent label r)).

Definition gui_insert_menu_button (parent label : value) (command : string)
  : M unit :=
  fun w =>
    (Ok tt,
     called w (insert_menu_button qtm (w_heap w) parent label command (w_host w))
       (Einsert_menu_button parent label command)).

Definition gui_get_commands (kind : string) : M (list string) :=
  fun w =>
    let '(r, s) := get_commands qtm kind (w_host w) in
    (Ok r, called w s (Eget_commands kind r)).

(** The per-gap loop of [_gap_fill_def]; [flag] is
    [not_all_gaps_filled_flag]. *)
Fixpoint fill_gaps (id_target gf_method settings : value)
    (gap_ranges : list gap_range) (flag : bool) : M bool :=
  match gap_ranges with
  | [] => ret flag
  | gap :: rest =>
      flag' <- try_except
                 (traj_fill_trajectory id_target gf_method gap settings ;;;
                  ret flag)
                 (ret true) ;;
      fill_gaps id_target gf_method settings rest flag'
  end.

Definition _gap_fill_def (def_id : Z) : M unit :=
  defs <- global_list_of_definitions ;;
  gf_def <- read (fun h => getitem_int h defs def_id) ;;
  target <- read (fun h => getitem h gf_def "target") ;;
  id_target <- traj_find_trajectory target ;;
  gap_ranges <- data_3d_get_gap_ranges id_target ;;
  gf_method <- read (fun h => getitem h gf_def "method") ;;
  settings <-
    (if in_strs gf_method ["relational"; "virtual"] then
       settings0 <- read (fun h => getitem h gf_def "settings") ;;
       settings <- copy_deepcopy settings0 ;;
       has_origin <- read (fun h => in_keys h settings "origin") ;;
       (if has_origin : bool then
          marker_name <- read (fun h => getitem h settings "origin") ;;
          id <- traj_find_trajectory marker_name ;;
          store settings "origin" id
        else ret tt) ;;;
       has_line <- read (fun h => in_keys h settings "line") ;;
       (if has_line : bool then
          marker_name <- read (fun h => getitem h settings "line") ;;
          id <- traj_find_trajectory marker_name ;;
          store settings "line" id
        else ret tt) ;;;
       has_plane <- read (fun h => in_keys h settings "plane") ;;
       (if has_plane : bool then
          marker_name <- read (fun h => getitem h settings "plane") ;;
          id <- traj_find_trajectory marker_name ;;
          store settings "plane" id
        else ret tt) ;;;
       ret settings
     else ret VNone) ;;
  gf_action <- read (fun h => getitem h gf_def "display_name") ;;
  msg <- read (fun h => Ok ("Applying gap filling action " +:+ str h gf_action)) ;;
  trm_write msg ;;;
  not_all_gaps_filled_flag <-
    fill_gaps id_target gf_method settings gap_ranges false ;;
  if not_all_gaps_filled_flag : bool then
    trm_write "- Not all gaps could be filled"
  else ret tt.

Definition add_my_commands : M unit :=
  let command_name := "gap_fill_def_0" in
  gui_add_command command_name ;;;
  gui_set_command_execute_function command_name (Lambda_gap_fill_def 0) ;;;
  let command_name := "gap_fill_def_1" in
  gui_add_command command_name ;;;
  gui_set_command_execute_function command_name (Lambda_gap_fill_def 1) ;;;
  let command_name := "gap_fill_def_2" in
  gui_add_command command_name ;;;
  gui_set_command_execute_function command_name (Lambda_gap_fill_def 2) ;;;
  let command_name := "gap_fill_def_3" in
  gui_add_command command_name ;;;
  gui_set_command_execute_function command_name (Lambda_gap_fill_def 3) ;;;
  let command_name := "gap_fill_def_4" in
  gui_add_command command_name ;;;
  gui_set_command_execute_function command_name (Lambda_gap_fill_def 4) ;;;
  let command_name := "gap_fill_def_5" in
  gui_add_command command_name ;;;
  gui_set_command_execute_function command_name (Lambda_gap_fill_def 5) ;;;
  let command_name := "gap_fill_def_6" in
  gui_add_command command_name ;;;
  gui_set_command_execute_function command_name (Lambda_gap_fill_def 6) ;;;
  let command_name := "gap_fill_def_7" in
  gui_add_command command_name ;;;
  gui_set_command_execute_function command_name (Lambda_gap_fill_def 7) ;;;
  let command_name := "gap_fill_def_8" in
  gui_add_command command_name ;;;
  gui_set_command_execute_function command_name (Lambda_gap_fill_def 8) ;;;
  let command_name := "gap_fill_def_9" in
  gui_add_command command_name ;;;
  gui_set_command_execute_function command_name (Lambda_gap_fill_def 9).

(** The text of the warning of [setup_my_menu] at index [i]. *)
Definition exceeds_maximum (i : Z) : string :=
  "Number of gap fill definitions exceeds maximum:" +:+
  String "010"%char "" +:+
  "- Definitions " +:+ pretty (i + 1) +:+ " and higher are ignored.".

(** The [for i in range(...)] loop of [setup_my_menu]; [break] ends the
    recursion. *)
Fixpoint menu_buttons (gf_sub_id : value) (indices : list Z) : M unit :=
  match indices with
  | [] => ret tt
  | i :: rest =>
      defs <- global_list_of_definitions ;;
      gf_def <- read (fun h => getitem_int h defs i) ;;
      disp_name <- read (fun h => getitem h gf_def "display_name") ;;
      let command_name := "gap_fill_def_" +:+ pretty i in
      user_commands <- gui_get_commands "user" ;;
      if negb (existsb (fun uc => String.eqb uc command_name) user_commands)
      then trm_write (exceeds_maximum i)
      else
        gui_insert_menu_button gf_sub_id disp_name command_name ;;;
        menu_buttons gf_sub_id rest
  end.

Definition setup_my_menu : M unit :=
  my_menu_id <- gui_insert_menu_submenu VNone "My menu" ;;
  gf_sub_id <- gui_insert_menu_submenu my_menu_id "Gap fill..." ;;
  defs <- global_list_of_definitions ;;
  n <- read (fun h => len h defs) ;;
  menu_buttons gf_sub_id (range n).

(** Object construction, as the evaluation of a list or dict display
    does it: a new object at the next free address. *)
Definition new_object (o : object) : M value :=
  fun w =>
    (Ok (VRef (length (w_heap w))),
     World (w_heap w ++ [o]) (list_of_definitions w) (w_host w) (w_trace w)).

Definition new_dict (entries : list (string * value)) : M value :=
  new_object (ODict (list_to_map entries)).

Definition new_list (items : list value) : M value :=
  new_object (OList items).

Definition set_list_of_definitions (v : value) : M unit :=
  fun w => (Ok tt, World (w_heap w) v (w_host w) (w_trace w)).

(** The assignment to [list_of_definitions] at the top of the script. *)
Definition define_list_of_definitions : M unit :=
  d0 <- new_dict [("display_name", VStr "Q_WaistBack (polynomial)");
                  ("target", VStr "Q_WaistBack");
                  ("method", VStr "polynomial")] ;;
  d1 <- new_dict [("display_name", VStr "Q_WaistBack (kinematic)");
                  ("target", VStr "Q_WaistBack");
                  ("method", VStr "kinematic")] ;;
  s2 <- new_dict [("origin", VStr "Q_WaistBack");
                  ("line", VStr "Q_WaistRFront");
                  ("plane", VStr "Q_WaistL")] ;;
  d2 <- new_dict [("display_name",
                   VStr "Q_WaistLFront (rel): WaistBack-WaistRFront-WaistL");
                  ("target", VStr "Q_WaistLFront");
                  ("method", VStr "relational");
                  ("settings", s2)] ;;
  s3 <- new_dict [("origin", VStr "Q_WaistBack");
                  ("line", VStr "Q_WaistLFront");
                  ("plane", VStr "Q_WaistR")] ;;
  d3 <- new_dict [("display_name",
                   VStr "Q_WaistRFront (rel): WaistBack-WaistLFront-WaistR");
                  ("target", VStr "Q_WaistRFront");
                  ("method", VStr "relational");
                  ("settings", s3)] ;;
  defs <- new_list [d0; d1; d2; d3] ;;
  set_list_of_definitions defs.

(** The script as the host loads it: the module-level statements in
    order. *)
Definition script : M unit :=
  define_list_of_definitions ;;;
  add_my_commands ;;;
  setup_my_menu.

(** What the host runs when a command is executed. *)
Definition call (f : closure) : M unit :=
  match f with
  | Lambda_gap_fill_def def_id => _gap_fill_def def_id
  end.

(** The host executing commands one after the other; an exception that
    escapes a command ends that command only. *)
Fixpoint run_commands (fs : list closure) (w : world H) : world H :=
  match fs with
  | [] => w
  | f :: fs => run_commands fs (call f w).2
  end.

(** ** Specifications *)

(** [c], started in [w], ends in a result and world that satisfy [Q]. *)
Definition wp {A} (c : M A) (w : world H)
    (Q : result A -> world H -> Prop) : Prop :=
  Q (c w).1 (c w).2.

(** What the settings conversion of [_gap_fill_def] did when it
    completed: nothing for the methods without settings; otherwise a
    deep copy [d1] at a new address [y], with the ids put in place of the
    names. *)
Inductive converted (h : heap) (d : gmap string value) (method : value)
  : value -> list event -> heap -> Prop :=
| conv_none :
    in_strs method ["relational"; "virtual"] = false ->
    converted h d method VNone [] h
| conv_copy settings0 y h1 d1 ao al ap :
    in_strs method ["relational"; "virtual"] = true ->
    d !! "settings" = Some settings0 ->
    deepcopy max_depth settings0 h = Ok (VRef y, h1) ->
    h1 !! y = Some (ODict d1) ->
    d1 !! "origin" = fst <$> ao ->
    d1 !! "line" = fst <$> al ->
    d1 !! "plane" = fst <$> ap ->
    converted h d method (VRef y)
      (lookup_event ao ++ lookup_event al ++ lookup_event ap)
      (<[y := ODict (put "plane" ap (put "line" al (put "origin" ao d1)))]> h1).

(** The two ways an invocation of [_gap_fill_def] ends: it raises before
    the loop, having made only lookups; or it completes. *)
Inductive gap_fill_outcome (i : Z) (w : world H)
  : result unit -> world H -> Prop :=
| gf_raised e w' lookups :
    w_trace w' = w_trace w ++ lookups ->
    Forall (fun ev => is_lookup ev = true) lookups ->
    (forall d target, definition_at w i = Some d ->
       d !! "target" = Some target ->
       exists r rest, lookups = Efind_trajectory target r :: rest) ->
    keeps w w' ->
    gap_fill_outcome i w (Raise e) w'
| gf_completed w' d target method display_name id gaps settings conv fills :
    definition_at w i = Some d ->
    d !! "target" = Some target ->
    d !! "method" = Some method ->
    d !! "display_name" = Some display_name ->
    converted (w_heap w) d method settings conv (w_heap w') ->
    fills.*1 = gaps ->
    w_trace w' =
      w_trace w ++
      [Efind_trajectory target (Ok id); Eget_gap_ranges id (Ok gaps)] ++
      conv ++
      [Ewrite ("Applying gap filling action " +:+
               str (w_heap w') display_name)] ++
      List.map (fill_event id method settings) fills ++
      (if existsb (fun p => negb (is_ok p.2)) fills
       then [Ewrite "- Not all gaps could be filled"] else []) ->
    keeps w w' ->
    gap_fill_outcome i w (Ok tt) w'.

(** The calls of the loop of [setup_my_menu] from index [i] on, for the
    display names still to come: a button while the command is among the
    user commands the host reports, else the warning, which ends it. *)
Inductive menu_trace (sub : value) : Z -> list value -> list event -> Prop :=
| menu_done i : menu_trace sub i [] []
| menu_button i name names cmds t :
    In (gap_fill_command i) cmds ->
    menu_trace sub (i + 1) names t ->
    menu_trace sub i (name :: names)
      (Eget_commands "user" cmds ::
       Einsert_menu_button sub name (gap_fill_command i) :: t)
| menu_exceeds i name names cmds :
    ~ In (gap_fill_command i) cmds ->
    menu_trace sub i (name :: names)
      [Eget_commands "user" cmds; Ewrite (exceeds_maximum i)].

(** The display name of every definition of a list of definitions. *)
Definition display_names (h : heap) (items : list value)
    (names : list value) : Prop :=
  Forall2
    (fun item name =>
       exists l d, item = VRef l /\ h !! l = Some (ODict d) /\
                   d !! "display_name" = Some name)
    items names.

End Script.

(** The objects the assignment to [list_of_definitions] creates, in the
    order of their creation; the list itself is the last. *)
Definition shipped_heap : heap :=
  [ODict (list_to_map
     [("display_name", VStr "Q_WaistBack (polynomial)");
      ("target", VStr "Q_WaistBack");
      ("method", VStr "polynomial")]);
   ODict (list_to_map
     [("display_name", VStr "Q_WaistBack (kinematic)");
      ("target", VStr "Q_WaistBack");
      ("method", VStr "kinematic")]);
   ODict (list_to_map
     [("origin", VStr "Q_WaistBack");
      ("line", VStr "Q_WaistRFront");
      ("plane", VStr "Q_WaistL")]);
   ODict (list_to_map
     [("display_name",
       VStr "Q_WaistLFront (rel): WaistBack-WaistRFront-WaistL");
      ("target", VStr "Q_WaistLFront");
      ("method", VStr "relational");
      ("settings", VRef 2)]);
   ODict (list_to_map
     [("origin", VStr "Q_WaistBack");
      ("line", VStr "Q_WaistLFront");
      ("plane", VStr "Q_WaistR")]);
   ODict (list_to_map
     [("display_name",
       VStr "Q_WaistRFront (rel): WaistBack-WaistLFront-WaistR");
      ("target", VStr "Q_WaistRFront");
      ("method", VStr "relational");
      ("settings", VRef 4)]);
   OList [VRef 0; VRef 1; VRef 3; VRef 5]].

(** ** Concrete runs against the small host *)

Module Run.

Definition depth : nat := 100.

Definition repr (h : heap) (v : value) : string := "<object>".

(** The script as shipped, loaded. *)
Definition loaded : world Stub.state := (script Stub.host Stub.initial).2.

(** The shipped definitions with the ten commands registered and no menu
    yet. *)
Definition registered : world Stub.state :=
  (bind define_list_of_definitions (fun _ => add_my_commands Stub.host)
     Stub.initial).2.

(** A list whose only definition asks for a relational fill of [target]
    and has no settings. *)
Definition without_settings (target : string) : world Stub.state :=
  (bind (new_dict [("display_name", VStr "no settings");
                   ("target", VStr target);
                   ("method", VStr "relational")]) (fun d =>
   bind (new_list [d]) (fun defs =>
   set_list_of_definitions defs)) Stub.initial).2.

(** A list whose only definition is a virtual fill with an offset and a
    flag next to the names. *)
Definition with_offset : world Stub.state :=
  (bind (new_list [VFloat (Qmake 0 1); VFloat (Qmake 21 2);
                   VFloat (Qmake 0 1)]) (fun offset =>
   bind (new_dict [("origin", VStr "Q_WaistBack");
                   ("line", VStr "Q_WaistL");
                   ("offset", offset);
                   ("is_rigid_body", VBool true)]) (fun settings =>
   bind (new_dict [("display_name", VStr "Q_WaistRFront (virtual)");
                   ("target", VStr "Q_WaistRFront");
                   ("method", VStr "virtual");
                   ("settings", settings)]) (fun d =>
   bind (new_list [d]) (fun defs =>
   set_list_of_definitions defs)))) Stub.initial).2.

(** [n] polynomial definitions for the same target, with the ten
    commands registered. *)
Fixpoint polynomial_definitions (n : nat) : M (H := Stub.state) (list value) :=
  match n with
  | O => ret []
  | S n =>
      bind (new_dict [("display_name", VStr "Q_WaistBack (again)");
                      ("target", VStr "Q_WaistBack");
                      ("method", VStr "polynomial")]) (fun d =>
      bind (polynomial_definitions n) (fun ds => ret (d :: ds)))
  end.

Definition crowded (n : nat) : world Stub.state :=
  (bind (polynomial_definitions n) (fun ds =>
   bind (new_list ds) (fun defs =>
   bind (set_list_of_definitions defs) (fun _ =>
   add_my_commands Stub.host))) Stub.initial).2.

(** A list whose only definition names a target that is not text. *)
Definition with_odd_target : world Stub.state :=
  (bind (new_dict [("display_name", VStr "odd");
                   ("target", VInt 7);
                   ("method", VStr "polynomial")]) (fun d =>
   bind (new_list [d]) (fun defs =>
   set_list_of_definitions defs)) Stub.initial).2.

End Run.

(** ** Further notions for the statements about the script as a whole *)

(** The definition [d] has what its method needs: a target, a display
    name and a method, and for the relational and virtual methods a
    settings dict that is a finite nested value. *)
Definition fits_method (n : nat) (h : heap) (d : gmap string value) : bool :=
  match d !! "target", d !! "display_name", d !! "method" with
  | Some _, Some _, Some method =>
      if in_strs method ["relational"; "virtual"] then
        match d !! "settings" with
        | Some (VRef l) =>
            match h !! l with
            | Some (ODict _) => well_formed n h (VRef l)
            | _ => false
            end
        | _ => false
        end
      else true
  | _, _, _ => false
  end.

(** The exception the host raised in a lookup, if the event is one. *)
Definition raised_by (ev : event) : option exn :=
  match ev with
  | Efind_trajectory _ (Raise e) | Eget_gap_ranges _ (Raise e) => Some e
  | _ => None
  end.

Definition gap_range_calls (t : list event) : list event :=
  List.filter
    (fun e => match e with Eget_gap_ranges _ _ => true | _ => false end) t.

(** What the host answered to the [get_commands] calls of a trace. *)
Definition reported_commands (t : list event) : list (list string) :=
  omap (fun e => match e with Eget_commands _ r => Some r | _ => None end) t.

(** A host that keeps the list of user commands as the script expects:
    [add_command] appends the name, [get_commands("user")] reports the
    list, and the other menu calls leave it alone.  [user] reads the list
    off the host state. *)
Record reports_commands {H : Type} (qtm : Host H) (user : H -> list string)
  : Prop := {
  reports_add : forall name s, user (add_command qtm name s) = user s ++ [name];
  reports_set : forall name f s,
    user (set_command_execute_function qtm name f s) = user s;
  reports_submenu : forall h parent label s,
    user (insert_menu_submenu qtm h parent label s).2 = user s;
  reports_button : forall h parent label command s,
    user (insert_menu_button qtm h parent label command s) = user s;
  reports_get : forall s,
    (get_commands qtm "user" s).1 = user s /\
    user (get_commands qtm "user" s).2 = user s
}.

(** The display names of the shipped definitions, in list order. *)
Definition shipped_names : list value :=
  [VStr "Q_WaistBack (polynomial)"; VStr "Q_WaistBack (kinematic)";
   VStr "Q_WaistLFront (rel): WaistBack-WaistRFront-WaistL";
   VStr "Q_WaistRFront (rel): WaistBack-WaistLFront-WaistR"].

Module More.

(** [n] polynomial definitions and no command registered yet. *)
Definition unregistered (n : nat) : world Stub.state :=
  (bind (Run.polynomial_definitions n) (fun ds =>
   bind (new_list ds) (fun defs =>
   set_list_of_definitions defs)) Stub.initial).2.

(** A list of three entries of which the second has no display name. *)
Definition nameless_second : world Stub.state :=
  (bind (new_dict [("display_name", VStr "first");
                   ("target", VStr "Q_WaistBack");
                   ("method", VStr "polynomial")]) (fun d0 =>
   bind (new_dict [("target", VStr "Q_WaistL");
                   ("method", VStr "polynomial")]) (fun d1 =>
   bind (new_dict [("display_name", VStr "third");
                   ("target", VStr "Q_WaistR");
                   ("method", VStr "polynomial")]) (fun d2 =>
   bind (new_list [d0; d1; d2]) (fun defs =>
   bind (set_list_of_definitions defs) (fun _ =>
   add_my_commands Stub.host))))) Stub.initial).2.

End More.

(** * Facts *)

(** ** The object store *)

Module PyFacts.

Lemma heap_kept_refl (h : heap) : heap_kept h h.
Proof. by intros l o. Qed.

Lemma heap_kept_trans (h1 h2 h3 : heap) :
  heap_kept h1 h2 -> heap_kept h2 h3 -> heap_kept h1 h3.
Proof. intros H12 H23 l o Hl. by apply H23, H12. Qed.

Lemma heap_kept_length (h h' : heap) :
  heap_kept h h' -> (length h <= length h')%nat.
Proof.
  intros Hk. destruct (length h) as [|n] eqn:Hn; [lia|].
  destruct (lookup_lt_is_Some_2 h n) as [o Ho]; [lia|].
  apply Hk, lookup_lt_Some in Ho. lia.
Qed.

Lemma heap_kept_app (h : heap) (o : object) : heap_kept h (h ++ [o]).
Proof. intros l o' Hl. by apply lookup_app_l_Some. Qed.

(** Writing at an address that did not exist in [h] keeps [h]. *)
Lemma heap_kept_insert (h h' : heap) (y : nat) (o : object) :
  heap_kept h h' -> (length h <= y)%nat -> heap_kept h (<[y := o]> h').
Proof.
  intros Hk Hy l o' Hl. pose proof (lookup_lt_Some _ _ _ Hl).
  rewrite list_lookup_insert_ne by lia. by apply Hk.
Qed.

Lemma copy_values_kept (cp : value -> heap -> result (value * heap))
    (vs : list value) :
  (forall v h v' h', cp v h = Ok (v', h') -> heap_kept h h') ->
  forall h vs' h',
    copy_values cp vs h = Ok (vs', h') ->
    heap_kept h h' /\ length vs' = length vs.
Proof.
  intros Hcp. induction vs as [|v vs IH]; intros h vs' h' Hc; simpl in Hc.
  - inversion Hc; subst. split; [apply heap_kept_refl | done].
  - destruct (cp v h) as [[v1 h1]|] eqn:Hv; [|done].
    destruct (copy_values cp vs h1) as [[vs1 h2]|] eqn:Hvs; [|done].
    inversion Hc; subst. destruct (IH _ _ _ Hvs) as [Hk Hlen].
    split; [|simpl; congruence].
    eapply heap_kept_trans; [by eapply Hcp | done].
Qed.

(** A deep copy leaves every existing object as it was. *)
Lemma deepcopy_kept (n : nat) :
  forall v h v' h', deepcopy n v h = Ok (v', h') -> heap_kept h h'.
Proof.
  induction n as [|n IH]; intros v h v' h' Hd.
  - destruct v; simpl in Hd; inversion Hd; subst; apply heap_kept_refl.
  - destruct v; simpl in Hd;
      try (inversion Hd; subst; apply heap_kept_refl).
    destruct (h !! l) as [[items|entries]|] eqn:Hl; [| |done].
    + destruct (copy_values _ items _) as [[items' h1]|] eqn:Hc; [|done].
      inversion Hd; subst.
      destruct (copy_values_kept _ _ IH _ _ _ Hc) as [Hk _].
      apply heap_kept_insert; [|done].
      eapply heap_kept_trans; [apply heap_kept_app | done].
    + destruct (copy_values _ _ _) as [[vals' h1]|] eqn:Hc; [|done].
      inversion Hd; subst.
      destruct (copy_values_kept _ _ IH _ _ _ Hc) as [Hk _].
      apply heap_kept_insert; [|done].
      eapply heap_kept_trans; [apply heap_kept_app | done].
Qed.

(** A container that comes out of a deep copy is a new one. *)
Lemma deepcopy_ref (n : nat) (v : value) (h : heap) (y : nat) (h' : heap) :
  deepcopy n v h = Ok (VRef y, h') -> y = length h /\ (y < length h')%nat.
Proof.
  intros Hd.
  assert (Hin : forall vs (h0 h1 : heap) vs',
    copy_values (deepcopy (pred n)) vs h0 = Ok (vs', h1) ->
    (length h0 <= length h1)%nat).
  { intros vs h0 h1 vs' Hc. apply heap_kept_length.
    by destruct (copy_values_kept _ _ (deepcopy_kept (pred n)) _ _ _ Hc). }
  destruct v; try (destruct n; simpl in Hd; by inversion Hd).
  destruct n as [|n]; [done|]. simpl in Hd, Hin.
  destruct (h !! l) as [[items|entries]|]; [| |done].
  - destruct (copy_values _ items _) as [[items' h1]|] eqn:Hc; [|done].
    inversion Hd; subst. apply Hin in Hc.
    rewrite length_insert. rewrite length_app in Hc. simpl in Hc. lia.
  - destruct (copy_values _ _ _) as [[vals' h1]|] eqn:Hc; [|done].
    inversion Hd; subst. apply Hin in Hc.
    rewrite length_insert. rewrite length_app in Hc. simpl in Hc. lia.
Qed.

(** [copy_of] survives a lower address bound and any change of the target
    heap below the bound. *)
Lemma copy_of_mono (n : nat) :
  forall lo lo' (h h1 h2 : heap) v v',
    copy_of n lo h h1 v v' ->
    (lo' <= lo)%nat ->
    (forall l o, (lo <= l)%nat -> h1 !! l = Some o -> h2 !! l = Some o) ->
    copy_of n lo' h h2 v v'.
Proof.
  induction n as [|n IH]; intros lo lo' h h1 h2 v v' Hc Hlo Hh.
  - destruct v; simpl in *; try done. destruct v'; try done. by destruct Hc.
  - destruct v; simpl in *; try done. destruct v' as [| | | | |l']; try done.
    destruct Hc as [Hl' Hc]. split; [lia|].
    destruct (h !! l) as [[a|a]|]; [| |done].
    + destruct (h1 !! l') as [[b|b]|] eqn:Hb; try done.
      rewrite (Hh _ _ Hl' Hb).
      eapply Forall2_impl; [done|]. intros x y Hxy.
      eapply IH; [done|lia|]. intros l0 o Hl0. apply Hh. lia.
    + destruct (h1 !! l') as [[b|b]|] eqn:Hb; try done.
      rewrite (Hh _ _ Hl' Hb). intros k.
      destruct (Hc k) as [x y Hxy|]; constructor.
      eapply IH; [done|lia|]. intros l0 o Hl0. apply Hh. lia.
Qed.

(** Copying the values of a dict and putting them back under their keys
    relates the two dicts key by key. *)
Lemma list_to_map_zip (R : value -> value -> Prop)
    (kvs : list (string * value)) (vals : list value) :
  NoDup kvs.*1 ->
  Forall2 R kvs.*2 vals ->
  forall k,
    option_Forall2 R
      ((list_to_map kvs : gmap string value) !! k)
      ((list_to_map (zip kvs.*1 vals) : gmap string value) !! k).
Proof.
  revert vals. induction kvs as [|[k0 v0] kvs IH]; intros vals Hnd HF k.
  - inversion HF; subst. simpl. rewrite lookup_empty. constructor.
  - simpl in *. inversion HF as [|? v1 ? vals1 Hv HF1]; subst. simpl.
    inversion Hnd; subst.
    destruct (decide (k0 = k)) as [->|Hne].
    + rewrite !lookup_insert_eq. by constructor.
    + rewrite !lookup_insert_ne by done. by apply IH.
Qed.

(** A finite nested value is copied, whatever was allocated since, and the
    copy has the content of the original. *)
Lemma deepcopy_correct (n : nat) :
  forall (h : heap) v hk,
    well_formed n h v = true -> heap_kept h hk ->
    exists v' hk',
      deepcopy n v hk = Ok (v', hk') /\
      heap_kept hk hk' /\
      copy_of n (length hk) h hk' v v'.
Proof.
  induction n as [|n IH]; intros h v hk Hwf Hk.
  - destruct v; simpl in *; try done; eexists _, _;
      (split; [done|]); (split; [apply heap_kept_refl | done]).
  - assert (Hvals : forall vs hc,
      forallb (well_formed n h) vs = true -> heap_kept h hc ->
      exists vs' hc',
        copy_values (deepcopy n) vs hc = Ok (vs', hc') /\
        heap_kept hc hc' /\
        Forall2 (copy_of n (length hc) h hc') vs vs').
    { induction vs as [|v0 vs IHvs]; intros hc HF Hc.
      - eexists _, _. split; [done|]. split; [apply heap_kept_refl|].
        constructor.
      - simpl in HF. apply andb_true_iff in HF as [Hv0 HF'].
        destruct (IH h v0 hc Hv0 Hc) as (v0' & h1 & Hd & Hk1 & Hc1).
        destruct (IHvs h1 HF') as (vs' & h2 & Hd2 & Hk2 & Hc2).
        { by eapply heap_kept_trans. }
        eexists _, _. simpl. rewrite Hd, Hd2. split; [done|].
        split; [by eapply heap_kept_trans|].
        constructor.
        + eapply copy_of_mono; [done|lia|]. intros l o _. apply Hk2.
        + eapply Forall2_impl; [done|]. intros x y Hxy.
          eapply copy_of_mono; [done| |done].
          by apply heap_kept_length. }
    destruct v; simpl in *; try done;
      try (eexists _, _; (split; [done|]);
           (split; [apply heap_kept_refl | done])).
    destruct (h !! l) as [[items|entries]|] eqn:Hl; [| |done];
      rewrite (Hk _ _ Hl).
    + destruct (Hvals items (hk ++ [OList []]) Hwf)
        as (items' & h1 & Hd & Hk1 & Hc1).
      { eapply heap_kept_trans; [done | apply heap_kept_app]. }
      pose proof (heap_kept_length _ _ Hk1) as Hlen.
      rewrite length_app in Hlen, Hc1. simpl in Hlen, Hc1.
      eexists _, _. rewrite Hd. split; [done|]. split.
      * apply heap_kept_insert; [|done].
        eapply heap_kept_trans; [apply heap_kept_app | done].
      * split; [done|].
        rewrite list_lookup_insert_eq by lia.
        eapply Forall2_impl; [done|]. intros x y Hxy.
        eapply copy_of_mono; [done|lia|].
        intros l0 o Hl0 Ho. rewrite list_lookup_insert_ne by lia. done.
    + destruct (Hvals (map_to_list entries).*2 (hk ++ [ODict ∅]) Hwf)
        as (vals' & h1 & Hd & Hk1 & Hc1).
      { eapply heap_kept_trans; [done | apply heap_kept_app]. }
      pose proof (heap_kept_length _ _ Hk1) as Hlen.
      rewrite length_app in Hlen, Hc1. simpl in Hlen, Hc1.
      eexists _, _. rewrite Hd. split; [done|]. split.
      * apply heap_kept_insert; [|done].
        eapply heap_kept_trans; [apply heap_kept_app | done].
      * split; [done|].
        rewrite list_lookup_insert_eq by lia.
        intros k.
        pose proof (list_to_map_zip
          (copy_of n (S (length hk)) h
             (<[length hk := ODict (list_to_map
                 (zip (map_to_list entries).*1 vals'))]> h1))
          (map_to_list entries) vals' (NoDup_fst_map_to_list entries)) as Hz.
        rewrite list_to_map_to_list in Hz. apply Hz.
        eapply Forall2_impl; [done|]. intros x y Hxy.
        eapply copy_of_mono; [done|lia|].
        intros l0 o Hl0 Ho. rewrite list_lookup_insert_ne by lia. done.
Qed.

(** For a value that is no container, a copy is the value itself. *)
Lemma copy_of_atom (n lo : nat) (h h' : heap) (v v' : value) :
  (forall l, v <> VRef l) -> copy_of n lo h h' v v' -> v' = v.
Proof.
  intros Hv Hc.
  destruct v; try (destruct n; simpl in Hc; exact Hc).
  by destruct (Hv l).
Qed.

Lemma well_formed_kept (n : nat) :
  forall (h h' : heap) v,
    well_formed n h v = true -> heap_kept h h' -> well_formed n h' v = true.
Proof.
  induction n as [|n IH]; intros h h' v Hwf Hk; destruct v; simpl in *;
    try done.
  assert (Hall : forall vs,
    forallb (well_formed n h) vs = true ->
    forallb (well_formed n h') vs = true).
  { induction vs as [|v vs IHvs]; simpl; [done|].
    rewrite !andb_true_iff. intros [Hv Hvs]. split; [by eapply IH | auto]. }
  destruct (h !! l) as [[items|entries]|] eqn:Hl; [| |done];
    rewrite (Hk _ _ Hl); by apply Hall.
Qed.

End PyFacts.

(** ** The script *)

Section ScriptFacts.

Context {H : Type}.
Variable qtm : Host H.
Variable max_depth : nat.
Variable py_repr : heap -> value -> string.

Import PyFacts.

Local Notation "x <- c ;; k" := (bind c (fun x => k))
  (at level 100, c at next level, right associativity).
Local Notation "c ;;; k" := (bind c (fun _ => k))
  (at level 100, right associativity).

(** *** Rules for reasoning about one step *)

Lemma wp_run {A} (c : M A) (w : world H) Q r w' :
  wp c w Q -> c w = (r, w') -> Q r w'.
Proof. unfold wp. intros HQ Hc. by rewrite Hc in HQ. Qed.

Lemma wp_ret {A} (a : A) (w : world H) Q : Q (Ok a) w -> wp (ret a) w Q.
Proof. done. Qed.

Lemma wp_bind {A B} (c : M A) (k : A -> M B) (w : world H) Q :
  wp c w (fun r w' =>
            match r with
            | Ok a => wp (k a) w' Q
            | Raise e => Q (Raise e) w'
            end) ->
  wp (bind c k) w Q.
Proof. unfold wp, bind. by destruct (c w) as [[a|e] w']. Qed.

Lemma wp_read {A} (f : heap -> result A) (w : world H) Q :
  Q (f (w_heap w)) w -> wp (read f) w Q.
Proof. done. Qed.

Lemma wp_global (w : world H) Q :
  Q (Ok (list_of_definitions w)) w -> wp global_list_of_definitions w Q.
Proof. done. Qed.

Lemma wp_find_trajectory name (w : world H) Q :
  (forall r s, find_trajectory qtm (w_heap w) name (w_host w) = (r, s) ->
     Q r (called w s (Efind_trajectory name r))) ->
  wp (traj_find_trajectory qtm name) w Q.
Proof.
  intros HQ. unfold wp, traj_find_trajectory.
  destruct (find_trajectory _ _ _ _) as [r s] eqn:Hf. by apply HQ.
Qed.

Lemma wp_get_gap_ranges id (w : world H) Q :
  (forall r s, get_gap_ranges qtm (w_heap w) id (w_host w) = (r, s) ->
     Q r (called w s (Eget_gap_ranges id r))) ->
  wp (data_3d_get_gap_ranges qtm id) w Q.
Proof.
  intros HQ. unfold wp, data_3d_get_gap_ranges.
  destruct (get_gap_ranges _ _ _ _) as [r s] eqn:Hf. by apply HQ.
Qed.

Lemma wp_copy_deepcopy x (w : world H) Q :
  match deepcopy max_depth x (w_heap w) with
  | Ok (y, h) =>
      Q (Ok y) (World h (list_of_definitions w) (w_host w) (w_trace w))
  | Raise e => Q (Raise e) w
  end ->
  wp (copy_deepcopy max_depth x) w Q.
Proof.
  unfold wp, copy_deepcopy. by destruct (deepcopy _ _ _) as [[y h]|e].
Qed.

(** *** Reading a definition *)

Lemma getitem_Ok (h : heap) (x : value) (k : string) (v : value) :
  getitem h x k = Ok v ->
  exists l d, x = VRef l /\ h !! l = Some (ODict d) /\ d !! k = Some v.
Proof.
  unfold getitem. intros Hg. destruct x; try done.
  destruct (h !! l) as [[items|d]|] eqn:Hl; try done.
  destruct (d !! k) eqn:Hk; [|done]. inversion Hg; subst. by eexists _, _.
Qed.

Lemma getitem_dict (h : heap) (l : nat) (d : gmap string value) (k : string) :
  h !! l = Some (ODict d) ->
  getitem h (VRef l) k =
    match d !! k with Some v => Ok v | None => Raise (KeyError k) end.
Proof. intros Hl. unfold getitem. by rewrite Hl. Qed.

Lemma definition_at_Some (w : world H) (i : Z) (d : gmap string value) :
  definition_at w i = Some d ->
  exists l,
    getitem_int (w_heap w) (list_of_definitions w) i = Ok (VRef l) /\
    w_heap w !! l = Some (ODict d).
Proof.
  unfold definition_at. intros Hd.
  destruct (getitem_int _ _ _) as [[]|]; try done.
  destruct (w_heap w !! l) as [[]|] eqn:Hl; try done.
  inversion Hd; subst. by eexists.
Qed.

Lemma definition_at_intro (w : world H) (i : Z) (l : nat)
    (d : gmap string value) :
  getitem_int (w_heap w) (list_of_definitions w) i = Ok (VRef l) ->
  w_heap w !! l = Some (ODict d) ->
  definition_at w i = Some d.
Proof. intros Hg Hl. unfold definition_at. by rewrite Hg, Hl. Qed.

Lemma keeps_refl (w : world H) : keeps w w.
Proof. split; [done | apply heap_kept_refl]. Qed.

Lemma keeps_trans (w1 w2 w3 : world H) :
  keeps w1 w2 -> keeps w2 w3 -> keeps w1 w3.
Proof.
  intros [Hg1 Hh1] [Hg2 Hh2]. split; [congruence|].
  by eapply heap_kept_trans.
Qed.

Lemma keeps_definition_at (w w' : world H) (i : Z) (d : gmap string value) :
  keeps w w' -> definition_at w i = Some d -> definition_at w' i = Some d.
Proof.
  intros [Hg Hk] Hd. apply definition_at_Some in Hd as (l & Hgi & Hl).
  apply definition_at_intro with l; [|by apply Hk].
  rewrite Hg. unfold getitem_int in *.
  destruct (list_of_definitions w) as [| | | | |l0]; try done.
  destruct (w_heap w !! l0) as [o|] eqn:Hl0; [|done].
  by rewrite (Hk _ _ Hl0).
Qed.

Lemma emitted_app (w w' : world H) (t : list event) :
  w_trace w' = w_trace w ++ t -> emitted w w' = t.
Proof. intros Ht. unfold emitted. rewrite Ht. by rewrite drop_app_length. Qed.

(** *** The per-gap loop *)

(** The loop never raises: it makes one call per gap, in order, whatever
    the host answers, and reports whether an answer was an exception. *)
Lemma fill_gaps_spec id method settings gaps :
  forall flag (w : world H),
  exists fills s,
    fills.*1 = gaps /\
    fill_gaps qtm id method settings gaps flag w =
      (Ok (flag || existsb (fun p => negb (is_ok p.2)) fills),
       World (w_heap w) (list_of_definitions w) s
         (w_trace w ++ List.map (fill_event id method settings) fills)).
Proof.
  induction gaps as [|gap gaps IH]; intros flag w.
  - exists [], (w_host w). split; [done|]. simpl.
    rewrite orb_false_r, app_nil_r. by destruct w.
  - simpl. unfold bind at 1. unfold try_except, bind at 1.
    unfold traj_fill_trajectory.
    destruct (fill_trajectory _ _ _ _ _ _ _) as [[[]|e] s1] eqn:Hf; simpl.
    + destruct (IH flag (called w s1
        (Efill_trajectory id method gap settings (Ok tt))))
        as (fills & s & Hfst & Hrun).
      exists ((gap, Ok tt) :: fills), s. split; [by rewrite fmap_cons, Hfst|].
      rewrite Hrun. simpl. by rewrite <- app_assoc.
    + destruct (IH true (called w s1
        (Efill_trajectory id method gap settings (Raise e))))
        as (fills & s & Hfst & Hrun).
      exists ((gap, Raise e) :: fills), s.
      split; [by rewrite fmap_cons, Hfst|].
      rewrite Hrun. simpl. rewrite orb_true_r. by rewrite <- app_assoc.
Qed.

(** *** From the announcement to the end of [_gap_fill_def] *)

Lemma announce_and_fill gf_def id_target gf_method gap_ranges settings
    (w : world H) display_name :
  getitem (w_heap w) gf_def "display_name" = Ok display_name ->
  exists fills s,
    fills.*1 = gap_ranges /\
    (gf_action <- read (fun h => getitem h gf_def "display_name") ;;
     msg <- read (fun h =>
       Ok ("Applying gap filling action " +:+ str py_repr h gf_action)) ;;
     trm_write qtm msg ;;;
     not_all_gaps_filled_flag <-
       fill_gaps qtm id_target gf_method settings gap_ranges false ;;
     if not_all_gaps_filled_flag : bool then
       trm_write qtm "- Not all gaps could be filled"
     else ret tt) w =
    (Ok tt,
     World (w_heap w) (list_of_definitions w) s
       (w_trace w ++
        [Ewrite ("Applying gap filling action " +:+
                 str py_repr (w_heap w) display_name)] ++
        List.map (fill_event id_target gf_method settings) fills ++
        (if existsb (fun p => negb (is_ok p.2)) fills
         then [Ewrite "- Not all gaps could be filled"] else []))).
Proof.
  intros Hdn.
  set (w1 := called w
    (write qtm ("Applying gap filling action " +:+
                str py_repr (w_heap w) display_name) (w_host w))
    (Ewrite ("Applying gap filling action " +:+
             str py_repr (w_heap w) display_name))).
  destruct (fill_gaps_spec id_target gf_method settings gap_ranges false w1)
    as (fills & s & Hfst & Hrun).
  destruct (existsb (fun p => negb (is_ok p.2)) fills) eqn:Hflag.
  - exists fills, (write qtm "- Not all gaps could be filled" s).
    split; [done|].
    unfold bind at 1. unfold read at 1. rewrite Hdn.
    unfold bind at 1. unfold read at 1.
    unfold bind at 1. unfold trm_write at 1. fold w1.
    unfold bind at 1. rewrite Hrun, Hflag. simpl.
    unfold trm_write, called. simpl. by rewrite <- !app_assoc.
  - exists fills, s. split; [done|].
    unfold bind at 1. unfold read at 1. rewrite Hdn.
    unfold bind at 1. unfold read at 1.
    unfold bind at 1. unfold trm_write at 1. fold w1.
    unfold bind at 1. rewrite Hrun, Hflag. simpl.
    unfold ret. simpl. by rewrite <- !app_assoc, app_nil_r.
Qed.

(** *** One of the three name conversions *)

Lemma put_lookup_ne (k k' : string) a (d : gmap string value) :
  k <> k' -> put k a d !! k' = d !! k'.
Proof.
  intros Hne. destruct a as [[name id]|]; simpl; [|done].
  by rewrite lookup_insert_ne.
Qed.

Lemma wp_convert {A} (y : nat) (key : string) (k : unit -> M A)
    (w : world H) (dcur : gmap string value) Q :
  w_heap w !! y = Some (ODict dcur) ->
  (forall a s,
     dcur !! key = fst <$> a ->
     wp (k tt)
        (World (<[y := ODict (put key a dcur)]> (w_heap w))
           (list_of_definitions w) s (w_trace w ++ lookup_event a)) Q) ->
  (forall name e s,
     dcur !! key = Some name ->
     Q (Raise e) (called w s (Efind_trajectory name (Raise e)))) ->
  wp (has <- read (fun h => in_keys h (VRef y) key) ;;
      bind (if has : bool then
              marker_name <- read (fun h => getitem h (VRef y) key) ;;
              id <- traj_find_trajectory qtm marker_name ;;
              store (VRef y) key id
            else ret tt) k) w Q.
Proof.
  intros Hy Hok Hraise.
  unfold wp, bind, read, ret, in_keys, traj_find_trajectory, store. simpl.
  rewrite Hy. destruct (dcur !! key) as [name|] eqn:Hkey.
  - rewrite bool_decide_eq_true_2 by done. rewrite Hy, Hkey.
    destruct (find_trajectory _ _ _ _) as [[id|e] s] eqn:Hf; simpl.
    + rewrite Hy. exact (Hok (Some (name, id)) s eq_refl).
    + exact (Hraise name e s eq_refl).
  - rewrite bool_decide_eq_false_2 by (by intros [??]).
    specialize (Hok None (w_host w) eq_refl). simpl in Hok.
    rewrite list_insert_id, app_nil_r in Hok by done. by destruct w.
Qed.

(** *** The invocation as a whole *)

Lemma lookup_event_is_lookup a :
  Forall (fun ev => is_lookup ev = true) (lookup_event a).
Proof. destruct a as [[name id]|]; simpl; by repeat constructor. Qed.

Local Ltac solve_trace :=
  simpl; rewrite <- ?app_assoc; simpl; rewrite ?app_nil_r; reflexivity.

Local Ltac solve_keeps :=
  split;
  [ reflexivity
  | first [ apply heap_kept_refl
          | assumption
          | match goal with Hk : forall o, heap_kept _ _ |- _ => apply Hk end ] ].

Local Ltac solve_lookups :=
  repeat first
    [ apply Forall_nil_2
    | apply Forall_cons_2; [reflexivity|]
    | apply Forall_app_2
    | apply lookup_event_is_lookup ].

(** Every invocation of [_gap_fill_def] ends in one of the two ways of
    [gap_fill_outcome]. *)
Lemma gap_fill_spec (i : Z) (w : world H) :
  wp (_gap_fill_def qtm max_depth py_repr i) w
     (gap_fill_outcome max_depth py_repr i w).
Proof.
  unfold _gap_fill_def.
  apply wp_bind, wp_global.
  apply wp_bind, wp_read.
  destruct (getitem_int (w_heap w) (list_of_definitions w) i)
    as [gf_def|e] eqn:Hdef.
  2: { apply gf_raised with (lookups := []);
         [solve_trace | solve_lookups | | solve_keeps].
       intros d0 t0 Hd0 _. apply definition_at_Some in Hd0 as (l & Hg & _).
       congruence. }
  apply wp_bind, wp_read.
  destruct (getitem (w_heap w) gf_def "target") as [target|e] eqn:Htarget.
  2: { apply gf_raised with (lookups := []);
         [solve_trace | solve_lookups | | solve_keeps].
       intros d0 t0 Hd0 Ht0.
       apply definition_at_Some in Hd0 as (l & Hg & Hl).
       rewrite Hdef in Hg. inversion Hg; subst.
       rewrite (getitem_dict _ _ _ _ Hl), Ht0 in Htarget. done. }
  destruct (getitem_Ok _ _ _ _ Htarget) as (l & d & -> & Hl & Ht).
  pose proof (definition_at_intro _ _ _ _ Hdef Hl) as Hat.
  assert (Hfirst : forall rest r d0 t0,
    definition_at w i = Some d0 -> d0 !! "target" = Some t0 ->
    exists r' rest', Efind_trajectory target r :: rest =
                     Efind_trajectory t0 r' :: rest').
  { intros rest r d0 t0 Hd0 Ht0. rewrite Hat in Hd0. inversion Hd0; subst.
    rewrite Ht in Ht0. inversion Ht0; subst. by eexists _, _. }
  apply wp_bind, wp_find_trajectory. intros [id|e] s1 Hf1.
  2: { apply gf_raised with (lookups := [Efind_trajectory target (Raise e)]);
         [solve_trace | solve_lookups | apply Hfirst | solve_keeps]. }
  apply wp_bind, wp_get_gap_ranges. intros [gaps|e] s2 Hf2.
  2: { apply gf_raised with
         (lookups := [Efind_trajectory target (Ok id);
                      Eget_gap_ranges id (Raise e)]);
         [solve_trace | solve_lookups | apply Hfirst | solve_keeps]. }
  apply wp_bind, wp_read. simpl w_heap.
  rewrite (getitem_dict _ _ _ _ Hl).
  destruct (d !! "method") as [method|] eqn:Hm.
  2: { apply gf_raised with
         (lookups := [Efind_trajectory target (Ok id);
                      Eget_gap_ranges id (Ok gaps)]);
         [solve_trace | solve_lookups | apply Hfirst | solve_keeps]. }
  (* from the announcement on, for whatever the conversion left *)
  assert (Htail : forall settings conv (W : world H),
    keeps w W ->
    w_trace W =
      w_trace w ++
      [Efind_trajectory target (Ok id); Eget_gap_ranges id (Ok gaps)] ++ conv ->
    Forall (fun ev => is_lookup ev = true) conv ->
    converted max_depth (w_heap w) d method settings conv (w_heap W) ->
    wp (gf_action <- read (fun h => getitem h (VRef l) "display_name") ;;
        msg <- read (fun h =>
          Ok ("Applying gap filling action " +:+ str py_repr h gf_action)) ;;
        trm_write qtm msg ;;;
        not_all_gaps_filled_flag <-
          fill_gaps qtm id method settings gaps false ;;
        if not_all_gaps_filled_flag : bool then
          trm_write qtm "- Not all gaps could be filled"
        else ret tt) W
       (gap_fill_outcome max_depth py_repr i w)).
  { intros settings conv W HkW HtW Hconv Hcv.
    pose proof (proj2 HkW _ _ Hl) as HlW.
    destruct (d !! "display_name") as [display_name|] eqn:Hdn.
    - destruct (announce_and_fill (VRef l) id method gaps settings W
                  display_name) as (fills & s & Hfst & Hrun).
      { by rewrite (getitem_dict _ _ _ _ HlW), Hdn. }
      unfold wp. rewrite Hrun. simpl.
      eapply gf_completed with (fills := fills); try done.
      simpl. rewrite HtW. by rewrite <- !app_assoc.
    - apply wp_bind, wp_read.
      rewrite (getitem_dict _ _ _ _ HlW), Hdn.
      eapply gf_raised; [exact HtW | solve_lookups; exact Hconv
                        | apply Hfirst | done]. }
  apply wp_bind.
  destruct (in_strs method ["relational"; "virtual"]) eqn:Hrel.
  - apply wp_bind, wp_read. simpl w_heap.
    rewrite (getitem_dict _ _ _ _ Hl).
    destruct (d !! "settings") as [settings0|] eqn:Hs.
    2: { apply gf_raised with
           (lookups := [Efind_trajectory target (Ok id);
                        Eget_gap_ranges id (Ok gaps)]);
           [solve_trace | solve_lookups | apply Hfirst | solve_keeps]. }
    apply wp_bind, wp_copy_deepcopy. simpl w_heap.
    destruct (deepcopy max_depth settings0 (w_heap w))
      as [[sv h1]|e] eqn:Hcopy.
    2: { apply gf_raised with
           (lookups := [Efind_trajectory target (Ok id);
                        Eget_gap_ranges id (Ok gaps)]);
           [solve_trace | solve_lookups | apply Hfirst | solve_keeps]. }
    pose proof (deepcopy_kept _ _ _ _ _ Hcopy) as Hk1.
    assert (Hstop : forall e,
      gap_fill_outcome max_depth py_repr i w (Raise e)
        (World h1 (list_of_definitions w) s2
           ((w_trace w ++ [Efind_trajectory target (Ok id)]) ++
            [Eget_gap_ranges id (Ok gaps)]))).
    { intros e. apply gf_raised with
        (lookups := [Efind_trajectory target (Ok id);
                     Eget_gap_ranges id (Ok gaps)]);
        [solve_trace | solve_lookups | apply Hfirst | solve_keeps]. }
    destruct sv as [| | | | |y];
      try (apply wp_bind, wp_read; simpl; apply Hstop).
    destruct (deepcopy_ref _ _ _ _ _ Hcopy) as [Hy Hylt].
    destruct (lookup_lt_is_Some_2 h1 y Hylt) as [[items|d1] Ho].
    { apply wp_bind, wp_read. simpl. rewrite Ho. apply Hstop. }
    assert (Hkept : forall o, heap_kept (w_heap w) (<[y := o]> h1)).
    { intros o. apply heap_kept_insert; [done | lia]. }
    apply wp_convert with (dcur := d1); [exact Ho | |].
    2: { intros name e s _.
         apply gf_raised with
           (lookups := [Efind_trajectory target (Ok id);
                        Eget_gap_ranges id (Ok gaps);
                        Efind_trajectory name (Raise e)]);
           [solve_trace | solve_lookups | apply Hfirst | solve_keeps]. }
    intros ao so Hao. simpl w_heap. simpl list_of_definitions. simpl w_trace.
    apply wp_convert with (dcur := put "origin" ao d1);
      [by apply list_lookup_insert_eq | |].
    2: { intros name e s _.
         apply gf_raised with
           (lookups := [Efind_trajectory target (Ok id);
                        Eget_gap_ranges id (Ok gaps)] ++ lookup_event ao ++
                       [Efind_trajectory name (Raise e)]);
           [solve_trace | solve_lookups | apply Hfirst | solve_keeps]. }
    intros al sl Hal. simpl w_heap. simpl list_of_definitions. simpl w_trace.
    rewrite list_insert_insert_eq.
    apply wp_convert with (dcur := put "line" al (put "origin" ao d1));
      [by apply list_lookup_insert_eq | |].
    2: { intros name e s _.
         apply gf_raised with
           (lookups := [Efind_trajectory target (Ok id);
                        Eget_gap_ranges id (Ok gaps)] ++ lookup_event ao ++
                       lookup_event al ++
                       [Efind_trajectory name (Raise e)]);
           [solve_trace | solve_lookups | apply Hfirst | solve_keeps]. }
    intros ap sp Hap. simpl w_heap. simpl list_of_definitions. simpl w_trace.
    rewrite list_insert_insert_eq.
    apply wp_ret.
    apply Htail with
      (conv := lookup_event ao ++ lookup_event al ++ lookup_event ap).
    + solve_keeps.
    + solve_trace.
    + solve_lookups.
    + simpl. rewrite put_lookup_ne in Hal by done.
      rewrite !put_lookup_ne in Hap by done.
      by eapply conv_copy.
  - apply wp_ret.
    apply Htail with (conv := []).
    + solve_keeps.
    + solve_trace.
    + solve_lookups.
    + simpl. by apply conv_none.
Qed.

Lemma gap_fill_run (i : Z) (w : world H) r w' :
  _gap_fill_def qtm max_depth py_repr i w = (r, w') ->
  gap_fill_outcome max_depth py_repr i w r w'.
Proof. apply wp_run, gap_fill_spec. Qed.

(** *** The menu *)

(** Whatever the definitions look like, [setup_my_menu] only talks to the
    menu and the terminal, and writes nothing of its own. *)
Lemma menu_buttons_gui sub indices :
  forall w : world H,
  exists s t,
    (menu_buttons qtm sub indices w).2 =
      World (w_heap w) (list_of_definitions w) s (w_trace w ++ t) /\
    Forall (fun ev => is_gui ev = true) t.
Proof.
  induction indices as [|i indices IH]; intros w.
  - exists (w_host w), []. rewrite app_nil_r. split; [by destruct w | done].
  - assert (Hstay : exists s t,
      w = World (w_heap w) (list_of_definitions w) s (w_trace w ++ t) /\
      Forall (fun ev => is_gui ev = true) t).
    { exists (w_host w), []. rewrite app_nil_r. split; [by destruct w|done]. }
    simpl. unfold bind, global_list_of_definitions, read, gui_get_commands.
    destruct (getitem_int _ _ _) as [gf_def|]; [|done].
    destruct (getitem _ _ _) as [disp_name|]; simpl; [|done].
    destruct (get_commands _ _ _) as [cmds s1]. simpl.
    destruct (existsb _ cmds); simpl.
    + destruct (IH (called (called w s1 (Eget_commands "user" cmds))
          (insert_menu_button qtm (w_heap w) sub disp_name
             ("gap_fill_def_" +:+ pretty i) s1)
          (Einsert_menu_button sub disp_name ("gap_fill_def_" +:+ pretty i))))
        as (s & t & Hrun & Ht).
      unfold gui_insert_menu_button. simpl. rewrite Hrun. simpl.
      eexists s, (_ :: _ :: t). split.
      * by rewrite <- !app_assoc.
      * by repeat constructor.
    + eexists _, [_; _]. split.
      * unfold called. simpl. by rewrite <- !app_assoc.
      * by repeat constructor.
Qed.

Lemma setup_my_menu_gui (w : world H) :
  exists s t,
    (setup_my_menu qtm w).2 =
      World (w_heap w) (list_of_definitions w) s (w_trace w ++ t) /\
    Forall (fun ev => is_gui ev = true) t.
Proof.
  unfold setup_my_menu, bind, gui_insert_menu_submenu,
    global_list_of_definitions, read.
  destruct (insert_menu_submenu _ _ _ _ _) as [my_menu_id s1]. simpl.
  destruct (insert_menu_submenu _ _ _ _ _) as [gf_sub_id s2]. simpl.
  destruct (len _ _) as [n|]; simpl.
  - match goal with |- context [menu_buttons _ _ _ ?W] =>
      destruct (menu_buttons_gui gf_sub_id (range n) W) as (s & t & Hrun & Ht)
    end.
    rewrite Hrun. simpl. eexists s, (_ :: _ :: t). split.
    + by rewrite <- !app_assoc.
    + by repeat constructor.
  - eexists _, [_; _]. split.
    + unfold called. simpl. by rewrite <- !app_assoc.
    + by repeat constructor.
Qed.

(** With a display name in every definition the loop runs as
    [menu_trace] describes. *)
Lemma menu_buttons_spec sub L items names :
  forall m k (w : world H),
    (k + m = length items)%nat ->
    list_of_definitions w = VRef L ->
    w_heap w !! L = Some (OList items) ->
    display_names (w_heap w) items names ->
    exists s t,
      menu_buttons qtm sub (List.map Z.of_nat (seq k m)) w =
        (Ok tt, World (w_heap w) (list_of_definitions w) s (w_trace w ++ t)) /\
      menu_trace sub (Z.of_nat k) (drop k names) t.
Proof.
  induction m as [|m IH]; intros k w Hkm Hdefs HL Hnames.
  - exists (w_host w), []. rewrite app_nil_r. split; [by destruct w|].
    rewrite drop_ge; [constructor|].
    apply Forall2_length in Hnames. lia.
  - assert (Hk : (k < length items)%nat) by lia.
    destruct (lookup_lt_is_Some_2 items k Hk) as [item Hitem].
    destruct (Forall2_lookup_l _ _ _ _ _ Hnames Hitem)
      as (name & Hname & l & d & -> & Hl & Hdn).
    rewrite (drop_S _ _ _ Hname).
    simpl. unfold bind at 1. unfold global_list_of_definitions at 1.
    unfold bind at 1. unfold read at 1. rewrite Hdefs. simpl getitem_int.
    rewrite HL. unfold index.
    replace ((0 <=? Z.of_nat k) && (Z.of_nat k <? Z.of_nat (length items)))
      with true by (symmetry; apply andb_true_iff; split; lia).
    rewrite Nat2Z.id, Hitem.
    unfold bind at 1. unfold read at 1. rewrite (getitem_dict _ _ _ _ Hl), Hdn.
    unfold bind at 1. unfold gui_get_commands at 1.
    destruct (get_commands qtm "user" (w_host w)) as [cmds s1] eqn:Hcmds.
    destruct (existsb (fun uc => String.eqb uc ("gap_fill_def_" +:+
      pretty (Z.of_nat k))) cmds) eqn:Hex; cbn [negb]; cbv beta iota.
    + apply existsb_exists in Hex as (uc & Hin & Heq).
      apply String.eqb_eq in Heq. subst uc.
      unfold bind at 1. unfold gui_insert_menu_button at 1. cbv beta iota.
      match goal with |- context [menu_buttons _ _ _ ?W] =>
        destruct (IH (S k) W) as (s & t & Hrun & Ht); [lia|done..|]
      end.
      rewrite Hrun. simpl. eexists s, (_ :: _ :: t). split.
      * rewrite <- !app_assoc. by rewrite ?Hdefs.
      * apply menu_button; [done|].
        by replace (Z.of_nat k + 1) with (Z.of_nat (S k)) by lia.
    + eexists _, [_; _]. split.
      * unfold trm_write, called. simpl. rewrite <- !app_assoc.
        by rewrite ?Hdefs.
      * apply menu_exceeds. intros Hin.
        apply not_true_iff_false in Hex. apply Hex.
        apply existsb_exists. exists (gap_fill_command (Z.of_nat k)).
        split; [done | apply String.eqb_refl].
Qed.

Lemma gap_fill_command_registered (i : Z) :
  In (gap_fill_command i) ten_commands <-> 0 <= i < 10.
Proof.
  unfold ten_commands. rewrite in_map_iff. split.
  - intros (j & Heq & Hj). unfold gap_fill_command in Heq.
    apply (inj (String.app _)) in Heq. apply (inj pretty) in Heq. subst j.
    unfold range in Hj. apply in_map_iff in Hj as (n & <- & Hn).
    apply in_seq in Hn. simpl in Hn. lia.
  - intros Hi. exists i. split; [done|]. unfold range.
    apply in_map_iff. exists (Z.to_nat i). split; [lia|].
    apply in_seq. simpl. lia.
Qed.

(** When the host reports the ten commands each time, the first ten
    definitions get their button and an eleventh gets the warning. *)
Lemma menu_trace_ten sub i names t :
  menu_trace sub i names t ->
  0 <= i <= 10 ->
  (forall kind cmds, In (Eget_commands kind cmds) t -> cmds = ten_commands) ->
  buttons t = button_list sub i (take (Z.to_nat (10 - i)) names) /\
  written t =
    if (Z.to_nat (10 - i) <? length names)%nat
    then [exceeds_maximum 10] else [].
Proof.
  induction 1 as [i|i name names cmds t Hin Ht IH|i name names cmds Hnin];
    intros Hi Hten.
  - by rewrite take_nil.
  - rewrite (Hten "user" cmds) in Hin by (by left).
    apply gap_fill_command_registered in Hin.
    destruct IH as [Hb Hw]; [lia | |].
    { intros kind cmds' Hc. apply (Hten kind). by right; right. }
    replace (Z.to_nat (10 - i)) with (S (Z.to_nat (10 - (i + 1)))) by lia.
    simpl. rewrite Hb. split; [done|]. rewrite Hw.
    by destruct (_ <? _)%nat.
  - rewrite (Hten "user" cmds) in Hnin by (by left).
    rewrite gap_fill_command_registered in Hnin.
    assert (i = 10) as -> by lia. simpl. done.
Qed.

(** *** Reading the trace of an invocation *)

Lemma converted_finds h d method settings conv h' :
  converted max_depth h d method settings conv h' ->
  Forall (fun ev => is_find ev = true) conv.
Proof.
  destruct 1 as [|? ? ? ? [[??]|] [[??]|] [[??]|]]; simpl;
    by repeat constructor.
Qed.

Lemma lookups_silent (t : list event) :
  Forall (fun ev => is_lookup ev = true) t ->
  fill_calls t = [] /\ written t = [] /\ filled_gaps t = [].
Proof.
  induction 1 as [|ev t Hev _ IH]; [done|].
  destruct IH as (IH1 & IH2 & IH3).
  unfold fill_calls, written, filled_gaps in *.
  destruct ev; try done; simpl; by rewrite ?IH1, ?IH2, ?IH3.
Qed.

Lemma finds_are_lookups (t : list event) :
  Forall (fun ev => is_find ev = true) t ->
  Forall (fun ev => is_lookup ev = true) t.
Proof. intros Hf. eapply Forall_impl; [done|]. by intros []. Qed.

Lemma fill_events_read id method settings fills :
  let t := List.map (fill_event id method settings) fills in
  fill_calls t = t /\ written t = [] /\ find_names t = [] /\
  filled_gaps t = fills.*1.
Proof.
  unfold fill_calls, written, find_names, filled_gaps.
  repeat split; induction fills as [|[gap r] fills IH]; simpl in *;
    try done; by f_equal.
Qed.

(** The calls of a completed invocation, sorted by kind. *)
Lemma completed_anatomy target id gaps conv msg method settings fills :
  Forall (fun ev => is_find ev = true) conv ->
  let failed := existsb (fun p => negb (is_ok p.2)) fills in
  let t :=
    [Efind_trajectory target (Ok id); Eget_gap_ranges id (Ok gaps)] ++
    conv ++ [Ewrite msg] ++
    List.map (fill_event id method settings) fills ++
    (if failed then [Ewrite "- Not all gaps could be filled"] else []) in
  fill_calls t = List.map (fill_event id method settings) fills /\
  filled_gaps t = fills.*1 /\
  written t =
    msg :: (if failed then ["- Not all gaps could be filled"] else []) /\
  find_names t = target :: find_names conv /\
  (forall id' r, In (Eget_gap_ranges id' r) t -> id' = id /\ r = Ok gaps).
Proof.
  intros Hconv failed t.
  destruct (lookups_silent conv (finds_are_lookups _ Hconv))
    as (Hc1 & Hc2 & Hc3).
  destruct (fill_events_read id method settings fills)
    as (Hf1 & Hf2 & Hf3 & Hf4).
  unfold fill_calls, written, find_names, filled_gaps in *. subst t.
  rewrite !List.filter_app, !omap_app, Hc1, Hc2, Hc3, Hf1, Hf2, Hf3, Hf4.
  split; [|split; [|split; [|split]]].
  - destruct failed; simpl; by rewrite app_nil_r.
  - destruct failed; simpl; by rewrite app_nil_r.
  - by destruct failed.
  - destruct failed; simpl; by rewrite !app_nil_r.
  - intros id' r Hin. simpl in Hin.
    destruct Hin as [Hin|[Hin|Hin]]; [done|by inversion Hin|].
    exfalso. apply in_app_or in Hin as [Hin|[Hin|Hin]]; [|done|].
    + rewrite Forall_forall in Hconv.
      apply list_elem_of_In, Hconv in Hin. done.
    + apply in_app_or in Hin as [Hin|Hin].
      * apply in_map_iff in Hin as (? & ? & _). done.
      * destruct failed; [|done]. by destruct Hin.
Qed.

(** *** The claims *)

Lemma add_my_commands_run (w : world H) :
  exists s,
    add_my_commands qtm w =
      (Ok tt,
       World (w_heap w) (list_of_definitions w) s
         (w_trace w ++
          flat_map
            (fun i => [Eadd_command (gap_fill_command i);
                       Eset_command_execute_function (gap_fill_command i)
                         (Lambda_gap_fill_def i)])
            (range 10))).
Proof.
  eexists. set (registrations := flat_map _ _).
  cbv [add_my_commands bind gui_add_command gui_set_command_execute_function
       called w_heap list_of_definitions w_host w_trace].
  rewrite <- !app_assoc. reflexivity.
Qed.

(** C6.  [add_my_commands] registers exactly the ten commands
    [gap_fill_def_0] to [gap_fill_def_9], each with the execute function
    that calls [_gap_fill_def] with the command's index; it does so in
    every world, whatever [list_of_definitions] holds, and touches
    nothing else. *)
Theorem add_my_commands_registers_ten (w : world H) :
  (add_my_commands qtm w).1 = Ok tt /\
  emitted w (add_my_commands qtm w).2 =
    flat_map
      (fun i => [Eadd_command (gap_fill_command i);
                 Eset_command_execute_function (gap_fill_command i)
                   (Lambda_gap_fill_def i)])
      (range 10) /\
  (forall i, call qtm max_depth py_repr (Lambda_gap_fill_def i) =
             _gap_fill_def qtm max_depth py_repr i) /\
  w_heap (add_my_commands qtm w).2 = w_heap w /\
  list_of_definitions (add_my_commands qtm w).2 = list_of_definitions w.
Proof.
  destruct (add_my_commands_run w) as [s ->]. simpl.
  split; [done|]. split; [by apply emitted_app | done].
Qed.

(** C3.  No invocation of [_gap_fill_def], [add_my_commands] or
    [setup_my_menu] changes [list_of_definitions]: the global names the
    same list afterwards, and every object that existed before the call,
    so the list, each definition dict and each settings dict, is
    unchanged.  What the conversion writes to is an object that did not
    exist before. *)
Theorem list_of_definitions_is_kept (w : world H) (i : Z) :
  keeps w (_gap_fill_def qtm max_depth py_repr i w).2 /\
  keeps w (add_my_commands qtm w).2 /\
  keeps w (setup_my_menu qtm w).2.
Proof.
  split; [|split].
  - pose proof (gap_fill_spec i w) as Hs. unfold wp in Hs.
    by inversion Hs.
  - split; [done | apply heap_kept_refl].
  - destruct (setup_my_menu_gui w) as (s & t & -> & _).
    split; [done | apply heap_kept_refl].
Qed.

Lemma fill_failed_is_fill (ev : event) :
  fill_failed ev = true -> is_fill ev = true.
Proof. by destruct ev. Qed.

Lemma failed_fill_events id method settings fills :
  existsb (fun p => negb (is_ok p.2)) fills = true <->
  exists ev, In ev (List.map (fill_event id method settings) fills) /\
             fill_failed ev = true.
Proof.
  rewrite existsb_exists. split.
  - intros ([gap r] & Hin & Hr). exists (fill_event id method settings (gap, r)).
    split; [by apply in_map|]. by destruct r.
  - intros (ev & Hin & Hev). apply in_map_iff in Hin as ([gap r] & <- & Hin).
    exists (gap, r). split; [done|]. by destruct r.
Qed.

(** C2.  The per-gap loop never raises and attempts every gap, whatever
    the host answers.  Hence for an invocation of [_gap_fill_def]: if it
    raises, the exception does not come from a fill call (none was made);
    if it returns, every gap range the host reported was attempted; and
    the message "- Not all gaps could be filled" is written exactly when
    a fill call raised. *)
Theorem fill_exceptions_are_suppressed (i : Z) (w : world H) :
  let run := _gap_fill_def qtm max_depth py_repr i w in
  let t := emitted w run.2 in
  (forall id method settings gaps flag (w0 : world H),
     let loop := fill_gaps qtm id method settings gaps flag w0 in
     is_ok loop.1 = true /\ filled_gaps (emitted w0 loop.2) = gaps) /\
  (forall e, run.1 = Raise e -> fill_calls t = []) /\
  (run.1 = Ok tt ->
   exists id gaps,
     In (Eget_gap_ranges id (Ok gaps)) t /\ filled_gaps t = gaps) /\
  (In "- Not all gaps could be filled" (written t) <->
   exists ev, In ev t /\ fill_failed ev = true).
Proof.
  intros run t. split.
  { intros id method settings gaps flag w0 loop. subst loop.
    destruct (fill_gaps_spec id method settings gaps flag w0)
      as (fills & s & Hfst & ->).
    split; [done|]. simpl.
    erewrite emitted_app by reflexivity.
    by destruct (fill_events_read id method settings fills) as (_&_&_& ->). }
  pose proof (gap_fill_spec i w) as Hs. unfold wp in Hs. fold run in Hs.
  subst t. destruct Hs as [e w' lookups Ht Hl _ _
    |w' d target method display_name id gaps settings conv fills
       _ _ _ _ Hconv Hfst Ht _].
  - rewrite (emitted_app _ _ _ Ht).
    destruct (lookups_silent _ Hl) as (Hf & Hw & _).
    split; [done|]. split; [done|]. rewrite Hw. split; [done|].
    intros (ev & Hin & Hev). apply fill_failed_is_fill in Hev.
    assert (In ev (fill_calls lookups)) as Hin' by (by apply filter_In).
    by rewrite Hf in Hin'.
  - rewrite (emitted_app _ _ _ Ht).
    destruct (completed_anatomy target id gaps conv
      ("Applying gap filling action " +:+ str py_repr (w_heap w') display_name)
      method settings fills (converted_finds _ _ _ _ _ _ Hconv))
      as (Hf & Hg & Hw & _ & _).
    split; [done|]. split.
    { intros _. exists id, gaps. split; [|by rewrite Hg].
      simpl. by right; left. }
    rewrite Hw. split.
    + intros [Heq|Hin]; [done|].
      destruct (existsb _ fills) eqn:Hex; [|done].
      apply (failed_fill_events id method settings) in Hex
        as (ev & Hev & Hfail).
      exists ev. split; [|done].
      simpl. right; right. apply in_or_app. right. simpl. right.
      apply in_or_app. by left.
    + intros (ev & Hin & Hfail).
      assert (In ev (List.map (fill_event id method settings) fills)) as Hev.
      { rewrite <- Hf. apply filter_In. split; [done|].
        by apply fill_failed_is_fill. }
      right. rewrite (proj2 (failed_fill_events id method settings fills));
        [by left | by exists ev].
Qed.



(** C10, as amended.  When [get_gap_ranges] returned no gap range,
    [fill_trajectory] is not called and "- Not all gaps could be filled"
    is not written; an invocation that completes writes one message,
    "Applying gap filling action " with the display name, and one that
    raises writes none. *)
Theorem no_gaps_nothing_to_fill (i : Z) (w w' : world H) r id :
  _gap_fill_def qtm max_depth py_repr i w = (r, w') ->
  In (Eget_gap_ranges id (Ok [])) (emitted w w') ->
  fill_calls (emitted w w') = [] /\
  ~ In "- Not all gaps could be filled" (written (emitted w w')) /\
  match r with
  | Ok _ =>
      exists d display_name,
        definition_at w i = Some d /\
        d !! "display_name" = Some display_name /\
        written (emitted w w') =
          ["Applying gap filling action " +:+
           str py_repr (w_heap w') display_name]
  | Raise _ => written (emitted w w') = []
  end.
Proof.
  intros Hrun Hin. apply gap_fill_run in Hrun.
  destruct Hrun as [e w' lookups Ht Hl _ _
    |w' d target method display_name id0 gaps settings conv fills
       Hat _ _ Hdn Hconv Hfst Ht _];
    rewrite (emitted_app _ _ _ Ht) in *.
  - destruct (lookups_silent _ Hl) as (Hf & Hw & _). rewrite Hw.
    split; [done|]. split; [by intros []|done].
  - destruct (completed_anatomy target id0 gaps conv
      ("Applying gap filling action " +:+ str py_repr (w_heap w') display_name)
      method settings fills (converted_finds _ _ _ _ _ _ Hconv))
      as (Hf & _ & Hw & _ & Hget).
    destruct (Hget _ _ Hin) as [_ Hgaps].
    assert (fills = []) as ->
      by (apply (fmap_nil_inv fst); congruence).
    simpl in *.
    rewrite Hw. split; [done|]. split.
    + intros [Heq|[]]. done.
    + by exists d, display_name.
Qed.

(** *** What the host receives as settings *)

Lemma put_lookup_eq (k : string) a (d : gmap string value) :
  d !! k = fst <$> a -> put k a d !! k = snd <$> a.
Proof.
  destruct a as [[name id]|]; simpl; [|done].
  intros _. by rewrite lookup_insert_eq.
Qed.

(** The dict the conversion leaves, key by key. *)
Lemma converted_lookup (d1 : gmap string value) ao al ap (k : string) :
  d1 !! "origin" = fst <$> ao ->
  d1 !! "line" = fst <$> al ->
  d1 !! "plane" = fst <$> ap ->
  put "plane" ap (put "line" al (put "origin" ao d1)) !! k =
    if decide (k = "origin") then snd <$> ao
    else if decide (k = "line") then snd <$> al
    else if decide (k = "plane") then snd <$> ap
    else d1 !! k.
Proof.
  intros Hao Hal Hap. repeat case_decide; subst.
  - rewrite !put_lookup_ne by done. by apply put_lookup_eq.
  - rewrite put_lookup_ne by done. apply put_lookup_eq.
    by rewrite put_lookup_ne.
  - apply put_lookup_eq. by rewrite !put_lookup_ne.
  - by rewrite !put_lookup_ne.
Qed.


(** A completed conversion of well-formed settings, seen from the heap
    [h] in which the definition was written. *)
Lemma converted_settings (h hk : heap) d method settings conv h' settings0 :
  converted max_depth hk d method settings conv h' ->
  in_strs method ["relational"; "virtual"] = true ->
  d !! "settings" = Some settings0 ->
  well_formed max_depth h settings0 = true ->
  heap_kept h hk ->
  exists l0 ds y d',
    settings0 = VRef l0 /\ h !! l0 = Some (ODict ds) /\
    settings = VRef y /\ y = length hk /\
    h' !! y = Some (ODict d') /\
    settings_passed (pred max_depth) h h' conv ds d' y /\
    Forall2 (copy_of (pred max_depth) (S y) h h')
      (omap (fun k => ds !! k) ["origin"; "line"; "plane"])
      (find_names conv).
Proof.
  intros Hconv Hrel Hs Hwf Hk.
  destruct Hconv as [Hno|settings0' y h1 d1 ao al ap _ Hs' Hcopy Hy Hao Hal Hap];
    [congruence|].
  rewrite Hs in Hs'. inversion Hs'; subst settings0'. clear Hs'.
  destruct (deepcopy_correct max_depth h settings0 hk Hwf Hk)
    as (v' & hk' & Hd & _ & Hc).
  rewrite Hcopy in Hd. inversion Hd; subst v' hk'. clear Hd.
  destruct (deepcopy_ref _ _ _ _ _ Hcopy) as [Hylen Hylt].
  destruct settings0 as [| | | | |l0];
    try (destruct max_depth; simpl in Hc; discriminate Hc).
  destruct max_depth as [|n]; [by destruct Hc|].
  simpl in Hc. destruct Hc as [_ Hc]. rewrite Hy in Hc.
  destruct (h !! l0) as [[items|ds]|] eqn:Hl0; try done.
  assert (Hmono : forall v v',
    copy_of n (S y) h h1 v v' ->
    copy_of n (S y) h
      (<[y := ODict (put "plane" ap (put "line" al (put "origin" ao d1)))]> h1)
      v v').
  { intros v v' Hvv. eapply copy_of_mono; [done|lia|].
    intros l o Hl Ho. rewrite list_lookup_insert_ne by lia. done. }
  exists l0, ds, y, (put "plane" ap (put "line" al (put "origin" ao d1))).
  split; [done|]. split; [done|]. split; [done|]. split; [done|].
  split; [by apply list_lookup_insert_eq|]. simpl pred. split.
  - intros k. specialize (Hc k).
    rewrite (converted_lookup d1 ao al ap k Hao Hal Hap).
    destruct (ds !! k) as [v|] eqn:Hv, (d1 !! k) as [v'|] eqn:Hd1;
      inversion Hc as [? ? Hvv'|]; subst.
    + exists v'. split; [by apply Hmono|].
      destruct (decide (k = "origin")) as [->|?];
        [|destruct (decide (k = "line")) as [->|?];
          [|destruct (decide (k = "plane")) as [->|?]]].
      * rewrite bool_decide_eq_true_2 by set_solver.
        rewrite Hd1 in Hao. destruct ao as [[name id]|]; [|done].
        inversion Hao; subst. exists id. split; [|done].
        simpl. by left.
      * rewrite bool_decide_eq_true_2 by set_solver.
        rewrite Hd1 in Hal. destruct al as [[name id]|]; [|done].
        inversion Hal; subst. exists id. split; [|done].
        apply in_or_app. right. apply in_or_app. left. simpl. by left.
      * rewrite bool_decide_eq_true_2 by set_solver.
        rewrite Hd1 in Hap. destruct ap as [[name id]|]; [|done].
        inversion Hap; subst. exists id. split; [|done].
        apply in_or_app. right. apply in_or_app. right. simpl. by left.
      * rewrite bool_decide_eq_false_2; [done|].
        rewrite !elem_of_cons, elem_of_nil. tauto.
    + destruct (decide (k = "origin")) as [->|?];
        [|destruct (decide (k = "line")) as [->|?];
          [|destruct (decide (k = "plane")) as [->|?]; [|done]]].
      * rewrite Hd1 in Hao. by destruct ao.
      * rewrite Hd1 in Hal. by destruct al.
      * rewrite Hd1 in Hap. by destruct ap.
  - pose proof (Hc "origin") as Ho. pose proof (Hc "line") as Hl.
    pose proof (Hc "plane") as Hp. rewrite Hao in Ho.
    rewrite Hal in Hl. rewrite Hap in Hp.
    unfold find_names. rewrite !omap_app. simpl omap at 1.
    destruct (ds !! "origin"), ao as [[??]|]; inversion Ho; subst;
    destruct (ds !! "line"), al as [[??]|]; inversion Hl; subst;
    destruct (ds !! "plane"), ap as [[??]|]; inversion Hp; subst;
    simpl; repeat constructor; by apply Hmono.
Qed.


(** *** Resolution at every invocation *)

Lemma run_commands_keeps (fs : list closure) :
  forall w : world H, keeps w (run_commands qtm max_depth py_repr fs w).
Proof.
  induction fs as [|[j] fs IH]; intros w; [apply keeps_refl|].
  simpl. eapply keeps_trans; [|apply IH].
  pose proof (gap_fill_spec j w) as Hs. unfold wp in Hs. by inversion Hs.
Qed.

Lemma gui_no_finds (t : list event) :
  Forall (fun ev => is_gui ev = true) t -> find_names t = [].
Proof.
  induction 1 as [|ev t Hev _ IH]; [done|].
  unfold find_names in *. by destruct ev.
Qed.

(** C7.  Names are resolved when a fill action runs, and each time anew:
    [add_my_commands] and [setup_my_menu] make no [find_trajectory]
    call; an invocation of [_gap_fill_def], after whatever commands ran
    before it, starts by asking the host for the target named in the
    definition, and one that completes has asked for exactly the target
    and the origin, line and plane named in the definition's settings,
    as they were written, not for anything kept from an earlier
    invocation. *)
Theorem names_are_resolved_anew (w : world H) (prior : list closure)
    (i : Z) d target method :
  definition_at w i = Some d ->
  d !! "target" = Some target ->
  d !! "method" = Some method ->
  let w1 := run_commands qtm max_depth py_repr prior w in
  let run := _gap_fill_def qtm max_depth py_repr i w1 in
  find_names (emitted w (add_my_commands qtm w).2) = [] /\
  find_names (emitted w (setup_my_menu qtm w).2) = [] /\
  (exists r rest, emitted w1 run.2 = Efind_trajectory target r :: rest) /\
  (run.1 = Ok tt ->
   if in_strs method ["relational"; "virtual"] then
     forall l0 ds,
       d !! "settings" = Some (VRef l0) ->
       w_heap w !! l0 = Some (ODict ds) ->
       well_formed max_depth (w_heap w) (VRef l0) = true ->
       exists names,
         find_names (emitted w1 run.2) = target :: names /\
         Forall2
           (copy_of (pred max_depth) (S (length (w_heap w1)))
              (w_heap w) (w_heap run.2))
           (omap (fun k => ds !! k) ["origin"; "line"; "plane"]) names
   else find_names (emitted w1 run.2) = [target]).
Proof.
  intros Hat Htg Hm w1 run.
  split.
  { destruct (add_my_commands_run w) as [s ->]. simpl.
    erewrite emitted_app by reflexivity. by vm_compute. }
  split.
  { destruct (setup_my_menu_gui w) as (s & t & -> & Ht).
    erewrite emitted_app by reflexivity. by apply gui_no_finds. }
  pose proof (run_commands_keeps prior w) as Hk. fold w1 in Hk.
  pose proof (keeps_definition_at _ _ _ _ Hk Hat) as Hat1.
  pose proof (gap_fill_spec i w1) as Hs. unfold wp in Hs. fold run in Hs.
  destruct Hs as [e w' lookups Ht Hl Hfirst _
    |w' d0 target0 method0 display_name id gaps settings conv fills
       Hat0 Htg0 Hm0 _ Hconv _ Ht _];
    rewrite (emitted_app _ _ _ Ht).
  - split; [by apply (Hfirst d target) | done].
  - rewrite Hat1 in Hat0. inversion Hat0; subst d0.
    rewrite Htg in Htg0. inversion Htg0; subst target0.
    rewrite Hm in Hm0. inversion Hm0; subst method0.
    split; [by eexists _, _|]. intros _.
    destruct (completed_anatomy target id gaps conv
      ("Applying gap filling action " +:+ str py_repr (w_heap w') display_name)
      method settings fills (converted_finds _ _ _ _ _ _ Hconv))
      as (_ & _ & _ & Hfind & _).
    rewrite Hfind.
    destruct (in_strs method ["relational"; "virtual"]) eqn:Hrel.
    + intros l0 ds Hs0 Hl0 Hwf.
      destruct (converted_settings (w_heap w) (w_heap w1) d method settings
        conv (w_heap w') (VRef l0) Hconv Hrel Hs0 Hwf (proj2 Hk))
        as (l0' & ds' & y & d' & Heq & Hl0' & -> & -> & _ & _ & Hnames).
      inversion Heq; subst l0'. rewrite Hl0 in Hl0'.
      inversion Hl0'; subst ds'. by exists (find_names conv).
    + destruct Hconv; [done | congruence].
Qed.

(** *** Definitions that do not fit their method *)

Lemma index_beyond {A} (l : list A) (i : Z) :
  Z.of_nat (length l) <= i -> index l i = None.
Proof.
  intros Hi. unfold index.
  replace ((0 <=? i) && (i <? Z.of_nat (length l))) with false
    by (symmetry; apply andb_false_iff; right; lia).
  replace ((- Z.of_nat (length l) <=? i) && (i <? 0)) with false
    by (symmetry; apply andb_false_iff; right; lia).
  done.
Qed.

(** C8.  Nothing in the script checks a definition against its method.
    For a definition in the list with a target: when the method is
    relational or virtual and there is no "settings" key, the invocation
    raises and no fill call is made, and the exception is the
    [KeyError] for "settings" once both lookups have returned; when
    [find_trajectory] raises for the target, or [get_gap_ranges] for the
    id, that exception leaves [_gap_fill_def] as it is, the lookup being
    the last host call. *)
Theorem unchecked_definitions_raise (i : Z) (w : world H) d target :
  definition_at w i = Some d ->
  d !! "target" = Some target ->
  let run := _gap_fill_def qtm max_depth py_repr i w in
  (forall method,
     d !! "method" = Some method ->
     in_strs method ["relational"; "virtual"] = true ->
     d !! "settings" = None ->
     (exists e, run.1 = Raise e) /\
     fill_calls (emitted w run.2) = [] /\
     (forall id s1 gaps s2,
        find_trajectory qtm (w_heap w) target (w_host w) = (Ok id, s1) ->
        get_gap_ranges qtm (w_heap w) id s1 = (Ok gaps, s2) ->
        run = (Raise (KeyError "settings"),
               World (w_heap w) (list_of_definitions w) s2
                 (w_trace w ++ [Efind_trajectory target (Ok id);
                                Eget_gap_ranges id (Ok gaps)])))) /\
  (forall e s1,
     find_trajectory qtm (w_heap w) target (w_host w) = (Raise e, s1) ->
     run = (Raise e,
            World (w_heap w) (list_of_definitions w) s1
              (w_trace w ++ [Efind_trajectory target (Raise e)]))) /\
  (forall id s1 e s2,
     find_trajectory qtm (w_heap w) target (w_host w) = (Ok id, s1) ->
     get_gap_ranges qtm (w_heap w) id s1 = (Raise e, s2) ->
     run = (Raise e,
            World (w_heap w) (list_of_definitions w) s2
              (w_trace w ++ [Efind_trajectory target (Ok id);
                             Eget_gap_ranges id (Raise e)]))).
Proof.
  intros Hat Htg run.
  destruct (definition_at_Some _ _ _ Hat) as (l & Hgi & Hl).
  split; [|split].
  - intros method Hm Hrel Hs. split; [|split].
    + pose proof (gap_fill_spec i w) as Ho. unfold wp in Ho. fold run in Ho.
      destruct Ho as [e|? d0 ? method0 ? ? ? ? ? ? Hat0 _ Hm0 _ Hconv];
        [by exists e|].
      rewrite Hat in Hat0. inversion Hat0; subst d0.
      rewrite Hm in Hm0. inversion Hm0; subst method0.
      destruct Hconv; congruence.
    + pose proof (gap_fill_spec i w) as Ho. unfold wp in Ho. fold run in Ho.
      destruct Ho as [e w' lookups Ht Hlk _ _
        |? d0 ? method0 ? ? ? ? ? ? Hat0 _ Hm0 _ Hconv].
      * rewrite (emitted_app _ _ _ Ht). by destruct (lookups_silent _ Hlk).
      * rewrite Hat in Hat0. inversion Hat0; subst d0.
        rewrite Hm in Hm0. inversion Hm0; subst method0.
        destruct Hconv; congruence.
    + intros id s1 gaps s2 Hf Hg.
      assert (Hgo : wp (_gap_fill_def qtm max_depth py_repr i) w
        (fun r w' => (r, w') =
          (Raise (KeyError "settings"),
           World (w_heap w) (list_of_definitions w) s2
             (w_trace w ++ [Efind_trajectory target (Ok id);
                            Eget_gap_ranges id (Ok gaps)])))).
      { unfold _gap_fill_def.
        apply wp_bind, wp_global. apply wp_bind, wp_read. rewrite Hgi.
        apply wp_bind, wp_read. rewrite (getitem_dict _ _ _ _ Hl), Htg.
        apply wp_bind, wp_find_trajectory. intros r s Hf'.
        rewrite Hf in Hf'. inversion Hf'; subst.
        apply wp_bind, wp_get_gap_ranges. intros r2 s2' Hg'. simpl in Hg'.
        rewrite Hg in Hg'. inversion Hg'; subst.
        apply wp_bind, wp_read. simpl w_heap.
        rewrite (getitem_dict _ _ _ _ Hl), Hm.
        apply wp_bind. rewrite Hrel. apply wp_bind, wp_read. simpl w_heap.
        rewrite (getitem_dict _ _ _ _ Hl), Hs.
        unfold called. simpl. by rewrite <- app_assoc. }
      unfold wp in Hgo. fold run in Hgo. by destruct run.
  - intros e s1 Hf.
    assert (Hgo : wp (_gap_fill_def qtm max_depth py_repr i) w
      (fun r w' => (r, w') =
        (Raise e, World (w_heap w) (list_of_definitions w) s1
           (w_trace w ++ [Efind_trajectory target (Raise e)])))).
    { unfold _gap_fill_def.
      apply wp_bind, wp_global. apply wp_bind, wp_read. rewrite Hgi.
      apply wp_bind, wp_read. rewrite (getitem_dict _ _ _ _ Hl), Htg.
      apply wp_bind, wp_find_trajectory. intros r s Hf'.
      rewrite Hf in Hf'. by inversion Hf'; subst. }
    unfold wp in Hgo. fold run in Hgo. by destruct run.
  - intros id s1 e s2 Hf Hg.
    assert (Hgo : wp (_gap_fill_def qtm max_depth py_repr i) w
      (fun r w' => (r, w') =
        (Raise e, World (w_heap w) (list_of_definitions w) s2
           (w_trace w ++ [Efind_trajectory target (Ok id);
                          Eget_gap_ranges id (Raise e)])))).
    { unfold _gap_fill_def.
      apply wp_bind, wp_global. apply wp_bind, wp_read. rewrite Hgi.
      apply wp_bind, wp_read. rewrite (getitem_dict _ _ _ _ Hl), Htg.
      apply wp_bind, wp_find_trajectory. intros r s Hf'.
      rewrite Hf in Hf'. inversion Hf'; subst.
      apply wp_bind, wp_get_gap_ranges. intros r2 s2' Hg'. simpl in Hg'.
      rewrite Hg in Hg'. inversion Hg'; subst.
      unfold called. simpl. by rewrite <- app_assoc. }
    unfold wp in Hgo. fold run in Hgo. by destruct run.
Qed.

(** *** Commands without a definition *)

Lemma gap_fill_beyond (w : world H) (k : Z) L items :
  list_of_definitions w = VRef L ->
  w_heap w !! L = Some (OList items) ->
  Z.of_nat (length items) <= k ->
  _gap_fill_def qtm max_depth py_repr k w = (Raise IndexError, w).
Proof.
  intros Hdefs HL Hk.
  assert (Hgo : wp (_gap_fill_def qtm max_depth py_repr k) w
    (fun r w' => (r, w') = (Raise IndexError, w))).
  { unfold _gap_fill_def. apply wp_bind, wp_global. apply wp_bind, wp_read.
    rewrite Hdefs. simpl. by rewrite HL, index_beyond. }
  unfold wp in Hgo. by destruct (_gap_fill_def _ _ _ _ _).
Qed.

Lemma define_list_of_definitions_run (s0 : H) :
  define_list_of_definitions (World [] VNone s0 []) =
    (Ok tt, World shipped_heap (VRef 6) s0 []).
Proof. reflexivity. Qed.

(** C9.  In the script as shipped the list has four definitions and ten
    commands are registered.  Executing one of [gap_fill_def_4] to
    [gap_fill_def_9] runs the function registered for it,
    [_gap_fill_def] with that index, which raises [IndexError] at the
    first subscript: the exception escapes and the world is as before,
    no host call made. *)
Theorem commands_beyond_the_list_raise (s0 : H) (k : Z) :
  4 <= k <= 9 ->
  let w := (script qtm (World [] VNone s0 [])).2 in
  len (w_heap w) (list_of_definitions w) = Ok 4 /\
  In (Eset_command_execute_function (gap_fill_command k)
        (Lambda_gap_fill_def k)) (w_trace w) /\
  call qtm max_depth py_repr (Lambda_gap_fill_def k) w = (Raise IndexError, w).
Proof.
  intros Hk w.
  assert (exists s t, w =
    World shipped_heap (VRef 6) s
      (([] ++ flat_map
          (fun i => [Eadd_command (gap_fill_command i);
                     Eset_command_execute_function (gap_fill_command i)
                       (Lambda_gap_fill_def i)])
          (range 10)) ++ t)) as (s & t & ->).
  { subst w. unfold script, bind.
    rewrite define_list_of_definitions_run.
    destruct (add_my_commands_run (World shipped_heap (VRef 6) s0 []))
      as [s1 ->].
    match goal with |- context [setup_my_menu qtm ?W] =>
      destruct (setup_my_menu_gui W) as (s2 & t & Hrun & _)
    end.
    exists s2, t. by rewrite Hrun. }
  cbn [w_heap list_of_definitions w_trace]. split; [done|]. split.
  - apply in_or_app. left. apply in_flat_map. exists k. split.
    + unfold range. apply in_map_iff. exists (Z.to_nat k).
      split; [lia|]. apply in_seq. simpl. lia.
    + by right; left.
  - apply gap_fill_beyond with (L := 6%nat)
      (items := [VRef 0; VRef 1; VRef 3; VRef 5]%nat); [done..|].
    simpl. lia.
Qed.

Lemma setup_my_menu_run (w : world H) L items names :
  list_of_definitions w = VRef L ->
  w_heap w !! L = Some (OList items) ->
  display_names (w_heap w) items names ->
  exists my_menu_id gf_sub_id s t,
    setup_my_menu qtm w =
      (Ok tt,
       World (w_heap w) (list_of_definitions w) s
         (w_trace w ++
          Einsert_menu_submenu VNone "My menu" my_menu_id ::
          Einsert_menu_submenu my_menu_id "Gap fill..." gf_sub_id :: t)) /\
    menu_trace gf_sub_id 0 names t.
Proof.
  intros Hdefs HL Hnames.
  unfold setup_my_menu. unfold bind at 1. unfold gui_insert_menu_submenu at 1.
  destruct (insert_menu_submenu qtm (w_heap w) VNone "My menu" (w_host w))
    as [my_menu_id s1].
  unfold bind at 1. unfold gui_insert_menu_submenu at 1.
  cbn [w_heap w_host called].
  destruct (insert_menu_submenu qtm (w_heap w) my_menu_id "Gap fill..." s1)
    as [gf_sub_id s2].
  unfold bind at 1. unfold global_list_of_definitions at 1.
  unfold bind at 1. unfold read at 1.
  cbn [w_heap list_of_definitions called]. rewrite Hdefs.
  unfold len. rewrite HL. unfold range. rewrite Nat2Z.id.
  match goal with |- context [menu_buttons qtm _ _ ?W] =>
    destruct (menu_buttons_spec gf_sub_id L items names (length items) 0%nat W)
      as (s & t & -> & Ht); [done..|]
  end.
  rewrite drop_0 in Ht. simpl in Ht.
  exists my_menu_id, gf_sub_id, s, t. split; [|done].
  unfold called. cbn [w_heap list_of_definitions w_trace]. rewrite ?Hdefs.
  by rewrite <- !app_assoc.
Qed.

(** C5.  [setup_my_menu] inserts the menu "My menu" at top level and
    under it the submenu "Gap fill...", then goes through the
    definitions in list order: while the command [gap_fill_def_i] is
    among the user commands the host reports, it inserts a button with
    the definition's display name for that command; at the first index
    whose command is missing it writes the warning and stops, so that
    definition and the later ones get no button.  With the ten registered
    commands that is the eleventh definition. *)
Theorem setup_my_menu_builds_the_menu (w : world H) L items names :
  list_of_definitions w = VRef L ->
  w_heap w !! L = Some (OList items) ->
  display_names (w_heap w) items names ->
  let run := setup_my_menu qtm w in
  run.1 = Ok tt /\
  exists my_menu_id gf_sub_id t,
    emitted w run.2 =
      Einsert_menu_submenu VNone "My menu" my_menu_id ::
      Einsert_menu_submenu my_menu_id "Gap fill..." gf_sub_id :: t /\
    menu_trace gf_sub_id 0 names t /\
    ((forall kind cmds, In (Eget_commands kind cmds) t ->
        cmds = ten_commands) ->
     buttons t = button_list gf_sub_id 0 (take 10 names) /\
     written t =
       if (10 <? length names)%nat then [exceeds_maximum 10] else []).
Proof.
  intros Hdefs HL Hnames run. subst run.
  destruct (setup_my_menu_run w L items names Hdefs HL Hnames)
    as (my_menu_id & gf_sub_id & s & t & -> & Ht).
  split; [done|]. exists my_menu_id, gf_sub_id, t.
  split; [by apply emitted_app|]. split; [done|]. intros Hten.
  destruct (menu_trace_ten _ _ _ _ Ht) as [Hb Hw]; [lia|done|].
  by rewrite Hb, Hw.
Qed.

(** *** Further properties of [_gap_fill_def] *)

Lemma index_below {A} (l : list A) (i : Z) :
  i < - Z.of_nat (length l) -> index l i = None.
Proof.
  intros Hi. unfold index.
  replace ((0 <=? i) && (i <? Z.of_nat (length l))) with false
    by (symmetry; apply andb_false_iff; left; lia).
  replace ((- Z.of_nat (length l) <=? i) && (i <? 0)) with false
    by (symmetry; apply andb_false_iff; left; lia).
  done.
Qed.

Lemma index_from_the_end {A} (l : list A) (i : Z) :
  - Z.of_nat (length l) <= i < 0 ->
  index l i = index l (Z.of_nat (length l) + i).
Proof.
  intros Hi. unfold index.
  replace ((0 <=? i) && (i <? Z.of_nat (length l))) with false
    by (symmetry; apply andb_false_iff; left; lia).
  replace ((- Z.of_nat (length l) <=? i) && (i <? 0)) with true
    by (symmetry; apply andb_true_iff; split; lia).
  replace ((0 <=? Z.of_nat (length l) + i) &&
           (Z.of_nat (length l) + i <? Z.of_nat (length l))) with true
    by (symmetry; apply andb_true_iff; split; lia).
  done.
Qed.

(** The index is the only use [_gap_fill_def] makes of its argument. *)
Lemma gap_fill_same_definition (w : world H) (i j : Z) :
  getitem_int (w_heap w) (list_of_definitions w) i =
  getitem_int (w_heap w) (list_of_definitions w) j ->
  _gap_fill_def qtm max_depth py_repr i w =
  _gap_fill_def qtm max_depth py_repr j w.
Proof.
  intros Heq. unfold _gap_fill_def.
  unfold bind at 1. unfold global_list_of_definitions at 1.
  unfold bind at 1. unfold read at 1.
  symmetry.
  unfold bind at 1. unfold global_list_of_definitions at 1.
  unfold bind at 1. unfold read at 1.
  by rewrite Heq.
Qed.

(** X1.  [_gap_fill_def] uses its argument as a Python subscript of the
    list of definitions: an index from the length of the list on, or
    below minus the length, raises [IndexError] before anything else
    happens, and a negative index within range runs the definition
    counted from the end of the list. *)
Theorem gap_fill_index_bounds (w : world H) (k : Z) L items :
  list_of_definitions w = VRef L ->
  w_heap w !! L = Some (OList items) ->
  let n := Z.of_nat (length items) in
  (n <= k \/ k < - n ->
   _gap_fill_def qtm max_depth py_repr k w = (Raise IndexError, w)) /\
  (- n <= k < 0 ->
   _gap_fill_def qtm max_depth py_repr k w =
   _gap_fill_def qtm max_depth py_repr (n + k) w).
Proof.
  intros Hdefs HL n. split.
  - intros Hk.
    assert (Hi : index items k = None).
    { destruct Hk; [by apply index_beyond | by apply index_below]. }
    assert (Hgo : wp (_gap_fill_def qtm max_depth py_repr k) w
      (fun r w' => (r, w') = (Raise IndexError, w))).
    { unfold _gap_fill_def. apply wp_bind, wp_global. apply wp_bind, wp_read.
      rewrite Hdefs. simpl. by rewrite HL, Hi. }
    unfold wp in Hgo. by destruct (_gap_fill_def _ _ _ _ _).
  - intros Hk. apply gap_fill_same_definition.
    rewrite Hdefs. simpl. rewrite HL. by rewrite index_from_the_end.
Qed.

(** X2.  A definition that has what its method needs cannot make
    [_gap_fill_def] fail: the invocation completes, or it raises the
    exception that the host raised in the lookup it made last
    ([find_trajectory] or [get_gap_ranges]). *)
Theorem fitting_definition_fails_only_by_host (i : Z) (w : world H) d :
  definition_at w i = Some d ->
  fits_method max_depth (w_heap w) d = true ->
  let run := _gap_fill_def qtm max_depth py_repr i w in
  run.1 = Ok tt \/
  exists e before ev,
    run.1 = Raise e /\
    emitted w run.2 = before ++ [ev] /\
    raised_by ev = Some e.
Proof.
  intros Hat Hfit run.
  destruct (definition_at_Some _ _ _ Hat) as (l & Hgi & Hl).
  unfold fits_method in Hfit.
  destruct (d !! "target") as [target|] eqn:Ht; [|done].
  destruct (d !! "display_name") as [display_name|] eqn:Hdn; [|done].
  destruct (d !! "method") as [method|] eqn:Hm; [|done].
  assert (Hgo : wp (_gap_fill_def qtm max_depth py_repr i) w
    (fun r w' =>
       r = Ok tt \/
       exists e before ev,
         r = Raise e /\ w_trace w' = w_trace w ++ before ++ [ev] /\
         raised_by ev = Some e)).
  { unfold _gap_fill_def.
    apply wp_bind, wp_global. apply wp_bind, wp_read. rewrite Hgi.
    apply wp_bind, wp_read. rewrite (getitem_dict _ _ _ _ Hl), Ht.
    apply wp_bind, wp_find_trajectory. intros [id|e] s1 _.
    2: { right. exists e, [], (Efind_trajectory target (Raise e)).
         split; [done|]. split; [solve_trace | done]. }
    apply wp_bind, wp_get_gap_ranges. intros [gaps|e] s2 _.
    2: { right. exists e, [Efind_trajectory target (Ok id)],
           (Eget_gap_ranges id (Raise e)).
         split; [done|]. split; [solve_trace | done]. }
    apply wp_bind, wp_read. simpl w_heap.
    rewrite (getitem_dict _ _ _ _ Hl), Hm.
    assert (Htail : forall settings (W : world H),
      w_heap W !! l = Some (ODict d) ->
      wp (gf_action <- read (fun h => getitem h (VRef l) "display_name") ;;
          msg <- read (fun h =>
            Ok ("Applying gap filling action " +:+ str py_repr h gf_action)) ;;
          trm_write qtm msg ;;;
          not_all_gaps_filled_flag <-
            fill_gaps qtm id method settings gaps false ;;
          if not_all_gaps_filled_flag : bool then
            trm_write qtm "- Not all gaps could be filled"
          else ret tt) W
         (fun r w' =>
            r = Ok tt \/
            exists e before ev,
              r = Raise e /\ w_trace w' = w_trace w ++ before ++ [ev] /\
              raised_by ev = Some e)).
    { intros settings W HlW.
      destruct (announce_and_fill (VRef l) id method gaps settings W
                  display_name) as (fills & s & _ & Hrun).
      { by rewrite (getitem_dict _ _ _ _ HlW), Hdn. }
      unfold wp. rewrite Hrun. by left. }
    apply wp_bind.
    destruct (in_strs method ["relational"; "virtual"]) eqn:Hrel.
    - destruct (d !! "settings") as [[| | | | |l0]|] eqn:Hs; try done.
      destruct (w_heap w !! l0) as [[items|ds]|] eqn:Hl0; try done.
      apply wp_bind, wp_read. simpl w_heap.
      rewrite (getitem_dict _ _ _ _ Hl), Hs.
      apply wp_bind, wp_copy_deepcopy. simpl w_heap.
      destruct (deepcopy_correct max_depth (w_heap w) (VRef l0) (w_heap w)
        Hfit (heap_kept_refl _)) as (v' & h1 & Hd & Hk1 & Hc).
      rewrite Hd.
      destruct max_depth as [|n]; [simpl in Hfit; discriminate Hfit|].
      destruct v' as [| | | | |y]; simpl in Hc; try done.
      destruct Hc as [Hy Hc]. rewrite Hl0 in Hc.
      destruct (h1 !! y) as [[items|d1]|] eqn:Hy1; try done.
      assert (Hkept : forall o,
        (<[y := o]> h1 : heap) !! l = Some (ODict d)).
      { intros o. pose proof (lookup_lt_Some _ _ _ Hl).
        rewrite list_lookup_insert_ne by lia. by apply Hk1. }
      pose proof (lookup_lt_Some _ _ _ Hy1) as Hylt.
      apply wp_convert with (dcur := d1); [exact Hy1 | |].
      2: { intros name e s _. right.
           exists e, [Efind_trajectory target (Ok id);
                      Eget_gap_ranges id (Ok gaps)],
             (Efind_trajectory name (Raise e)).
           split; [done|]. split; [solve_trace | done]. }
      intros ao so _. simpl w_heap. simpl list_of_definitions.
      simpl w_trace.
      apply wp_convert with (dcur := put "origin" ao d1);
        [by apply list_lookup_insert_eq | |].
      2: { intros name e s _. right.
           exists e, ([Efind_trajectory target (Ok id);
                       Eget_gap_ranges id (Ok gaps)] ++ lookup_event ao),
             (Efind_trajectory name (Raise e)).
           split; [done|]. split; [solve_trace | done]. }
      intros al sl _. simpl w_heap. simpl list_of_definitions.
      simpl w_trace. rewrite list_insert_insert_eq.
      apply wp_convert with (dcur := put "line" al (put "origin" ao d1));
        [by apply list_lookup_insert_eq | |].
      2: { intros name e s _. right.
           exists e, ([Efind_trajectory target (Ok id);
                       Eget_gap_ranges id (Ok gaps)] ++ lookup_event ao ++
                      lookup_event al),
             (Efind_trajectory name (Raise e)).
           split; [done|]. split; [solve_trace | done]. }
      intros ap sp _. simpl w_heap. simpl list_of_definitions.
      simpl w_trace. rewrite list_insert_insert_eq.
      apply wp_ret. apply Htail. simpl. apply Hkept.
    - apply wp_ret. by apply Htail. }
  unfold wp in Hgo. fold run in Hgo.
  destruct Hgo as [Hok|(e & before & ev & He & Ht' & Hev)]; [by left|].
  right. exists e, before, ev. split; [done|].
  split; [by apply emitted_app | done].
Qed.

Lemma converted_at_most_three h d method settings conv h' :
  converted max_depth h d method settings conv h' ->
  (length (find_names conv) <= 3)%nat /\ gap_range_calls conv = [].
Proof.
  destruct 1 as [|? ? ? ? [[??]|] [[??]|] [[??]|]]; simpl; split;
    (lia || done).
Qed.

Lemma fill_events_failed id method settings fills :
  existsb fill_failed (List.map (fill_event id method settings) fills) =
  existsb (fun p => negb (is_ok p.2)) fills.
Proof.
  induction fills as [|[gap [[]|e]] fills IH]; simpl; by rewrite ?IH.
Qed.

Lemma fill_events_are_fills id method settings fills :
  Forall (fun ev => is_fill ev = true)
    (List.map (fill_event id method settings) fills).
Proof. induction fills as [|[gap r] fills IH]; by constructor. Qed.

(** X3.  The host calls of an invocation of [_gap_fill_def] come in a
    fixed order and nothing else is called: first the lookups
    ([find_trajectory], [get_gap_ranges]); then, if none of the steps
    before the loop raised, the announcement on the terminal, one fill
    call after the other, and last, if a fill call raised, the message
    that not all gaps could be filled.  A completed invocation has asked
    for the gap ranges once and looked up between one and four names,
    however many gaps there are; no menu or command call is ever made. *)
Theorem gap_fill_calls_in_order (i : Z) (w : world H) :
  let run := _gap_fill_def qtm max_depth py_repr i w in
  exists lookups rest,
    emitted w run.2 = lookups ++ rest /\
    Forall (fun ev => is_lookup ev = true) lookups /\
    match run.1 with
    | Raise _ => rest = []
    | Ok _ =>
        (1 <= length (find_names lookups) <= 4)%nat /\
        length (gap_range_calls lookups) = 1%nat /\
        exists msg fills,
          rest =
            Ewrite msg :: fills ++
            (if existsb fill_failed fills
             then [Ewrite "- Not all gaps could be filled"] else []) /\
          Forall (fun ev => is_fill ev = true) fills
    end.
Proof.
  intros run.
  pose proof (gap_fill_spec i w) as Hs. unfold wp in Hs. fold run in Hs.
  destruct Hs as [e w' lookups Ht Hl _ _
    |w' d target method display_name id gaps settings conv fills
       _ _ _ _ Hconv _ Ht _];
    rewrite (emitted_app _ _ _ Ht).
  - exists lookups, []. by rewrite app_nil_r.
  - destruct (converted_at_most_three _ _ _ _ _ _ Hconv) as [Hthree Hnone].
    exists ([Efind_trajectory target (Ok id); Eget_gap_ranges id (Ok gaps)]
            ++ conv).
    eexists. split; [by rewrite <- app_assoc|]. split.
    { apply Forall_app_2; [by repeat constructor|].
      apply finds_are_lookups. by eapply converted_finds. }
    unfold find_names, gap_range_calls, omap in *.
    split; [simpl; lia|].
    split; [simpl; by rewrite Hnone|].
    eexists _, (List.map (fill_event id method settings) fills).
    split; [|apply fill_events_are_fills].
    simpl. by rewrite fill_events_failed.
Qed.

(** X4.  Only the relational and virtual methods make [_gap_fill_def]
    create objects.  When the definition's method is any other (or there
    is no such definition) the heap after the invocation is the heap
    before it, whether it completes or raises; a completed relational
    or virtual invocation leaves at least one new object, its copy of the
    settings, behind. *)
Theorem only_conversion_allocates (i : Z) (w : world H) :
  let run := _gap_fill_def qtm max_depth py_repr i w in
  ((forall d method,
      definition_at w i = Some d -> d !! "method" = Some method ->
      in_strs method ["relational"; "virtual"] = false) ->
   w_heap run.2 = w_heap w) /\
  (run.1 = Ok tt ->
   forall d method,
     definition_at w i = Some d -> d !! "method" = Some method ->
     in_strs method ["relational"; "virtual"] = true ->
     (length (w_heap w) < length (w_heap run.2))%nat).
Proof.
  intros run. split.
  - intros Hno.
    assert (Hgo : wp (_gap_fill_def qtm max_depth py_repr i) w
      (fun _ w' => w_heap w' = w_heap w)).
    { unfold _gap_fill_def.
      apply wp_bind, wp_global. apply wp_bind, wp_read.
      destruct (getitem_int (w_heap w) (list_of_definitions w) i)
        as [gf_def|e] eqn:Hdef; [|done].
      apply wp_bind, wp_read.
      destruct (getitem (w_heap w) gf_def "target") as [target|e] eqn:Htarget;
        [|done].
      destruct (getitem_Ok _ _ _ _ Htarget) as (l & d & -> & Hl & Ht).
      pose proof (definition_at_intro _ _ _ _ Hdef Hl) as Hat.
      apply wp_bind, wp_find_trajectory. intros [id|e] s1 _; [|done].
      apply wp_bind, wp_get_gap_ranges. intros [gaps|e] s2 _; [|done].
      apply wp_bind, wp_read. simpl w_heap.
      rewrite (getitem_dict _ _ _ _ Hl).
      destruct (d !! "method") as [method|] eqn:Hm; [|done].
      apply wp_bind. rewrite (Hno d method Hat Hm). apply wp_ret.
      match goal with |- wp _ ?W _ => set (W0 := W) end.
      destruct (getitem (w_heap W0) (VRef l) "display_name")
        as [display_name|e] eqn:Hdn.
      + destruct (announce_and_fill (VRef l) id method gaps VNone W0
                    display_name Hdn) as (fills & s & _ & Hrun).
        unfold wp. by rewrite Hrun.
      + apply wp_bind, wp_read. by rewrite Hdn. }
    exact Hgo.
  - intros Hok d method Hat Hm Hrel.
    pose proof (gap_fill_spec i w) as Hs. unfold wp in Hs. fold run in Hs.
    rewrite Hok in Hs.
    inversion Hs as [|w' d0 target method0 display_name id gaps settings conv
      fills Hat0 _ Hm0 _ Hconv _ _ _]; subst.
    rewrite Hat in Hat0. inversion Hat0; subst d0.
    rewrite Hm in Hm0. inversion Hm0; subst method0.
    inversion Hconv as [Hno|settings0 y h1 d1 ao al ap _ _ Hcopy _ _ _ _];
      [congruence|].
    destruct (deepcopy_ref _ _ _ _ _ Hcopy) as [Hy Hylt].
    rewrite length_insert. lia.
Qed.

(** *** Further properties of the menu *)

Lemma menu_trace_prefix sub i names t :
  menu_trace sub i names t ->
  exists k,
    (k <= length names)%nat /\
    buttons t = button_list sub i (take k names) /\
    written t =
      (if (k <? length names)%nat
       then [exceeds_maximum (i + Z.of_nat k)] else []) /\
    length (reported_commands t) =
      (k + if (k <? length names)%nat then 1 else 0)%nat.
Proof.
  induction 1 as [i|i name names cmds t Hin Ht IH|i name names cmds Hnin].
  - exists 0%nat. by repeat split.
  - destruct IH as (k & Hk & Hb & Hw & Hr). exists (S k).
    split; [simpl; lia|]. split; [simpl; by rewrite Hb|].
    split.
    + change (written (Eget_commands "user" cmds ::
        Einsert_menu_button sub name (gap_fill_command i) :: t))
        with (written t).
      rewrite Hw.
      replace (i + Z.of_nat (S k)) with (i + 1 + Z.of_nat k) by lia.
      destruct (Nat.ltb_spec k (length names)),
        (Nat.ltb_spec (S k) (length (name :: names))); simpl in *;
        (done || lia).
    + change (length (reported_commands (Eget_commands "user" cmds ::
        Einsert_menu_button sub name (gap_fill_command i) :: t)))
        with (S (length (reported_commands t))).
      rewrite Hr.
      destruct (Nat.ltb_spec k (length names)),
        (Nat.ltb_spec (S k) (length (name :: names))); simpl in *; lia.
  - exists 0%nat. split; [simpl; lia|]. split; [done|].
    replace (i + Z.of_nat 0) with i by lia. done.
Qed.

(** X5.  Whatever the host reports, the buttons [setup_my_menu] inserts
    are those of the first [k] definitions, in list order, for the
    commands [gap_fill_def_0] to [gap_fill_def_(k-1)].  No warning is
    written when every definition got its button; otherwise exactly one
    warning is written, which names definition [k+1], the first one left
    out.  The host is asked for its commands once per button and once
    more for the warning, so not at all for an empty list. *)
Theorem buttons_are_a_prefix (w : world H) L items names :
  list_of_definitions w = VRef L ->
  w_heap w !! L = Some (OList items) ->
  display_names (w_heap w) items names ->
  let t := emitted w (setup_my_menu qtm w).2 in
  exists my_menu_id gf_sub_id k,
    (k <= length names)%nat /\
    take 2 t =
      [Einsert_menu_submenu VNone "My menu" my_menu_id;
       Einsert_menu_submenu my_menu_id "Gap fill..." gf_sub_id] /\
    buttons t = button_list gf_sub_id 0 (take k names) /\
    written t =
      (if (k <? length names)%nat
       then [exceeds_maximum (Z.of_nat k)] else []) /\
    length (reported_commands t) =
      (k + if (k <? length names)%nat then 1 else 0)%nat.
Proof.
  intros Hdefs HL Hnames t. subst t.
  destruct (setup_my_menu_run w L items names Hdefs HL Hnames)
    as (my_menu_id & gf_sub_id & s & t & -> & Ht).
  erewrite emitted_app by reflexivity.
  destruct (menu_trace_prefix _ _ _ _ Ht) as (k & Hk & Hb & Hw & Hr).
  exists my_menu_id, gf_sub_id, k. by repeat split.
Qed.

(** *** The two setup functions together *)

Lemma add_my_commands_user (user : H -> list string) (w : world H) :
  reports_commands qtm user ->
  user (w_host (add_my_commands qtm w).2) = user (w_host w) ++ ten_commands.
Proof.
  intros Hrep.
  cbv [add_my_commands bind gui_add_command gui_set_command_execute_function
       called w_heap list_of_definitions w_host w_trace snd].
  repeat (rewrite (reports_set _ _ Hrep) || rewrite (reports_add _ _ Hrep)).
  rewrite <- !app_assoc. reflexivity.
Qed.

Lemma menu_buttons_reported (user : H -> list string) sub indices :
  reports_commands qtm user ->
  forall w : world H,
  exists s t,
    (menu_buttons qtm sub indices w).2 =
      World (w_heap w) (list_of_definitions w) s (w_trace w ++ t) /\
    Forall (fun cmds => cmds = user (w_host w)) (reported_commands t).
Proof.
  intros Hrep. induction indices as [|i indices IH]; intros w.
  - exists (w_host w), []. rewrite app_nil_r. split; [by destruct w | done].
  - assert (Hstay : exists s t,
      w = World (w_heap w) (list_of_definitions w) s (w_trace w ++ t) /\
      Forall (fun cmds => cmds = user (w_host w)) (reported_commands t)).
    { exists (w_host w), []. rewrite app_nil_r. split; [by destruct w|done]. }
    simpl. unfold bind, global_list_of_definitions, read, gui_get_commands.
    destruct (getitem_int _ _ _) as [gf_def|]; [|done].
    destruct (getitem _ _ _) as [disp_name|]; simpl; [|done].
    destruct (reports_get _ _ Hrep (w_host w)) as [Hcmds Hs1].
    destruct (get_commands _ _ _) as [cmds s1]. simpl in Hcmds, Hs1. simpl.
    destruct (existsb _ cmds); simpl.
    + destruct (IH (called (called w s1 (Eget_commands "user" cmds))
          (insert_menu_button qtm (w_heap w) sub disp_name
             ("gap_fill_def_" +:+ pretty i) s1)
          (Einsert_menu_button sub disp_name ("gap_fill_def_" +:+ pretty i))))
        as (s & t & Hrun & Ht).
      unfold gui_insert_menu_button. simpl. rewrite Hrun. simpl.
      eexists s, (_ :: _ :: t). split.
      * by rewrite <- !app_assoc.
      * simpl in Ht. rewrite (reports_button _ _ Hrep), Hs1 in Ht.
        by constructor.
    + eexists _, [_; _]. split.
      * unfold called. simpl. by rewrite <- !app_assoc.
      * by repeat constructor.
Qed.

Lemma setup_my_menu_reported (user : H -> list string) (w : world H) :
  reports_commands qtm user ->
  Forall (fun cmds => cmds = user (w_host w))
    (reported_commands (emitted w (setup_my_menu qtm w).2)).
Proof.
  intros Hrep.
  unfold setup_my_menu, bind, gui_insert_menu_submenu,
    global_list_of_definitions, read.
  pose proof (reports_submenu _ _ Hrep (w_heap w) VNone "My menu" (w_host w))
    as Hs1.
  destruct (insert_menu_submenu _ _ _ _ _) as [my_menu_id s1]. simpl in Hs1.
  simpl.
  pose proof (reports_submenu _ _ Hrep (w_heap w) my_menu_id "Gap fill..." s1)
    as Hs2.
  destruct (insert_menu_submenu _ _ _ _ _) as [gf_sub_id s2]. simpl in Hs2.
  simpl.
  destruct (len _ _) as [n|]; simpl.
  - match goal with |- context [menu_buttons _ _ _ ?W] =>
      destruct (menu_buttons_reported user gf_sub_id (range n) Hrep W)
        as (s & t & Hrun & Ht)
    end.
    rewrite Hrun. erewrite emitted_app
      by (simpl; rewrite <- !app_assoc; reflexivity).
    simpl in *. by rewrite Hs2, Hs1 in Ht.
  - erewrite emitted_app
      by (unfold called; simpl; rewrite <- !app_assoc; reflexivity).
    done.
Qed.

(** X6.  Loading order matters and works out: when the host keeps the
    user commands as [add_command] and [get_commands] suggest, and none
    is registered beforehand, then [add_my_commands] followed by
    [setup_my_menu] gives the first ten definitions their button, in
    list order, and writes the warning exactly when there are more than
    ten definitions. *)
Theorem commands_then_menu (user : H -> list string) (w : world H)
    L items names :
  reports_commands qtm user ->
  user (w_host w) = [] ->
  list_of_definitions w = VRef L ->
  w_heap w !! L = Some (OList items) ->
  display_names (w_heap w) items names ->
  let run := bind (add_my_commands qtm) (fun _ => setup_my_menu qtm) w in
  run.1 = Ok tt /\
  exists gf_sub_id,
    buttons (emitted w run.2) = button_list gf_sub_id 0 (take 10 names) /\
    written (emitted w run.2) =
      if (10 <? length names)%nat then [exceeds_maximum 10] else [].
Proof.
  intros Hrep Hnone Hdefs HL Hnames run. subst run. unfold bind.
  pose proof (add_my_commands_user user w Hrep) as Huser.
  destruct (add_my_commands_run w) as [s1 Hadd].
  rewrite Hadd in Huser |- *. simpl in Huser. rewrite Hnone in Huser.
  match goal with |- context [setup_my_menu qtm ?W] => set (w1 := W) end.
  pose proof (setup_my_menu_reported user w1 Hrep) as Hall.
  destruct (setup_my_menu_run w1 L items names Hdefs HL Hnames)
    as (my_menu_id & gf_sub_id & s & t & Hrun & Ht).
  rewrite Hrun in Hall |- *. split; [done|]. exists gf_sub_id.
  erewrite emitted_app in Hall by reflexivity.
  erewrite emitted_app by (simpl; rewrite <- app_assoc; reflexivity).
  destruct (menu_trace_ten _ _ _ _ Ht) as [Hb Hw]; [lia| |].
  { intros kind cmds Hin. rewrite Forall_forall in Hall.
    rewrite (Hall cmds); [exact Huser|].
    unfold reported_commands. simpl. apply list_elem_of_omap.
    exists (Eget_commands kind cmds). split; [by apply list_elem_of_In|done]. }
  split.
  - unfold buttons in *. rewrite List.filter_app. exact Hb.
  - unfold written in *. rewrite omap_app. exact Hw.
Qed.

(** *** A definition without a display name *)

Lemma menu_buttons_nameless sub L items k bad names e rest :
  items !! k = Some bad ->
  forall m j (w : world H),
    (j + m = k)%nat ->
    list_of_definitions w = VRef L ->
    w_heap w !! L = Some (OList items) ->
    getitem (w_heap w) bad "display_name" = Raise e ->
    display_names (w_heap w) (take k items) names ->
    exists r s t,
      menu_buttons qtm sub
        (List.map Z.of_nat (seq j m) ++ Z.of_nat k :: rest) w =
        (r, World (w_heap w) (list_of_definitions w) s (w_trace w ++ t)) /\
      menu_trace sub (Z.of_nat j) (drop j names) t /\
      (r = Raise e /\ written t = [] \/ r = Ok tt /\ written t <> []).
Proof.
  intros Hbad.
  assert (Hlt : (k < length items)%nat) by by eapply lookup_lt_Some.
  induction m as [|m IH]; intros j w Hjm Hdefs HL Hraise Hnames.
  - replace j with k by lia.
    exists (Raise e), (w_host w), []. rewrite app_nil_r. split; [|split].
    + simpl. unfold bind at 1. unfold global_list_of_definitions at 1.
      unfold bind at 1. unfold read at 1. rewrite Hdefs. simpl getitem_int.
      rewrite HL. unfold index.
      replace ((0 <=? Z.of_nat k) && (Z.of_nat k <? Z.of_nat (length items)))
        with true by (symmetry; apply andb_true_iff; split; lia).
      rewrite Nat2Z.id, Hbad.
      unfold bind at 1. unfold read at 1. rewrite Hraise.
      rewrite <- Hdefs. by destruct w.
    + rewrite drop_ge; [constructor|].
      apply Forall2_length in Hnames. rewrite length_take in Hnames. lia.
    + by left.
  - assert (Hj : (j < k)%nat) by lia.
    assert (Hjl : (j < length (take k items))%nat)
      by (rewrite length_take; lia).
    destruct (lookup_lt_is_Some_2 _ j Hjl) as [item Hitem].
    destruct (Forall2_lookup_l _ _ _ _ _ Hnames Hitem)
      as (name & Hname & l & d & -> & Hl & Hdn).
    rewrite lookup_take_lt in Hitem by done.
    rewrite (drop_S _ _ _ Hname).
    simpl. unfold bind at 1. unfold global_list_of_definitions at 1.
    unfold bind at 1. unfold read at 1. rewrite Hdefs. simpl getitem_int.
    rewrite HL. unfold index.
    replace ((0 <=? Z.of_nat j) && (Z.of_nat j <? Z.of_nat (length items)))
      with true by (symmetry; apply andb_true_iff; split; lia).
    rewrite Nat2Z.id, Hitem.
    unfold bind at 1. unfold read at 1. rewrite (getitem_dict _ _ _ _ Hl), Hdn.
    unfold bind at 1. unfold gui_get_commands at 1.
    destruct (get_commands qtm "user" (w_host w)) as [cmds s1] eqn:Hcmds.
    destruct (existsb (fun uc => String.eqb uc ("gap_fill_def_" +:+
      pretty (Z.of_nat j))) cmds) eqn:Hex; cbn [negb]; cbv beta iota.
    + apply existsb_exists in Hex as (uc & Hin & Heq).
      apply String.eqb_eq in Heq. subst uc.
      unfold bind at 1. unfold gui_insert_menu_button at 1. cbv beta iota.
      match goal with |- context [menu_buttons _ _ _ ?W] =>
        destruct (IH (S j) W) as (r & s & t & Hrun & Ht & Hr); [lia|done..|]
      end.
      rewrite Hrun. simpl. eexists r, s, (_ :: _ :: t). split; [|split].
      * rewrite <- !app_assoc. by rewrite ?Hdefs.
      * apply menu_button; [done|].
        by replace (Z.of_nat j + 1) with (Z.of_nat (S j)) by lia.
      * exact Hr.
    + eexists (Ok tt), _, [_; _]. split; [|split].
      * unfold trm_write, called. simpl. rewrite <- !app_assoc.
        by rewrite ?Hdefs.
      * apply menu_exceeds. intros Hin.
        apply not_true_iff_false in Hex. apply Hex.
        apply existsb_exists. exists (gap_fill_command (Z.of_nat j)).
        split; [done | apply String.eqb_refl].
      * by right.
Qed.

Lemma setup_my_menu_nameless_run (w : world H) L items k bad names e :
  list_of_definitions w = VRef L ->
  w_heap w !! L = Some (OList items) ->
  items !! k = Some bad ->
  getitem (w_heap w) bad "display_name" = Raise e ->
  display_names (w_heap w) (take k items) names ->
  exists my_menu_id gf_sub_id r s t,
    setup_my_menu qtm w =
      (r,
       World (w_heap w) (list_of_definitions w) s
         (w_trace w ++
          Einsert_menu_submenu VNone "My menu" my_menu_id ::
          Einsert_menu_submenu my_menu_id "Gap fill..." gf_sub_id :: t)) /\
    menu_trace gf_sub_id 0 names t /\
    (r = Raise e /\ written t = [] \/ r = Ok tt /\ written t <> []).
Proof.
  intros Hdefs HL Hbad Hraise Hnames.
  assert (Hlt : (k < length items)%nat) by by eapply lookup_lt_Some.
  unfold setup_my_menu. unfold bind at 1. unfold gui_insert_menu_submenu at 1.
  destruct (insert_menu_submenu qtm (w_heap w) VNone "My menu" (w_host w))
    as [my_menu_id s1].
  unfold bind at 1. unfold gui_insert_menu_submenu at 1.
  cbn [w_heap w_host called].
  destruct (insert_menu_submenu qtm (w_heap w) my_menu_id "Gap fill..." s1)
    as [gf_sub_id s2].
  unfold bind at 1. unfold global_list_of_definitions at 1.
  unfold bind at 1. unfold read at 1.
  cbn [w_heap list_of_definitions called]. rewrite Hdefs.
  unfold len. rewrite HL. unfold range. rewrite Nat2Z.id.
  replace (length items) with (k + S (length items - S k))%nat by lia.
  rewrite seq_app, List.map_app. simpl seq. rewrite List.map_cons.
  match goal with |- context [menu_buttons qtm _ (_ ++ _ :: ?R) ?W] =>
    destruct (menu_buttons_nameless gf_sub_id L items k bad names e R Hbad
                k 0%nat W) as (r & s & t & -> & Ht & Hr); [done..|]
  end.
  rewrite drop_0 in Ht. change (Z.of_nat 0) with 0 in Ht.
  exists my_menu_id, gf_sub_id, r, s, t. split; [|done].
  unfold called. cbn [w_heap list_of_definitions w_trace]. rewrite ?Hdefs.
  by rewrite <- !app_assoc.
Qed.

(** X7.  [setup_my_menu] reads [display_name] unguarded.  When the
    definitions before position [k] have one and the definition at [k]
    has none, the exception of that lookup leaves [setup_my_menu] after
    the two submenus and the buttons of all [k] earlier definitions are
    in the menu, with nothing written; unless the loop ended before, at
    a definition whose command the host does not report, with the
    warning and without an exception. *)
Theorem nameless_definition_stops_the_menu (w : world H)
    L items k bad names e :
  list_of_definitions w = VRef L ->
  w_heap w !! L = Some (OList items) ->
  items !! k = Some bad ->
  getitem (w_heap w) bad "display_name" = Raise e ->
  display_names (w_heap w) (take k items) names ->
  let run := setup_my_menu qtm w in
  exists my_menu_id gf_sub_id j,
    take 2 (emitted w run.2) =
      [Einsert_menu_submenu VNone "My menu" my_menu_id;
       Einsert_menu_submenu my_menu_id "Gap fill..." gf_sub_id] /\
    buttons (emitted w run.2) = button_list gf_sub_id 0 (take j names) /\
    (run.1 = Raise e /\ j = k /\ written (emitted w run.2) = [] \/
     run.1 = Ok tt /\ (j < k)%nat /\
     written (emitted w run.2) = [exceeds_maximum (Z.of_nat j)]).
Proof.
  intros Hdefs HL Hbad Hraise Hnames run. subst run.
  assert (Hlt : (k < length items)%nat) by by eapply lookup_lt_Some.
  assert (Hlen : length names = k).
  { apply Forall2_length in Hnames. rewrite length_take in Hnames. lia. }
  destruct (setup_my_menu_nameless_run w L items k bad names e
              Hdefs HL Hbad Hraise Hnames)
    as (my_menu_id & gf_sub_id & r & s & t & -> & Ht & Hr).
  erewrite emitted_app by reflexivity.
  destruct (menu_trace_prefix _ _ _ _ Ht) as (j & Hj & Hb & Hw & _).
  change (0 + Z.of_nat j) with (Z.of_nat j) in Hw.
  exists my_menu_id, gf_sub_id, j. split; [done|]. split; [exact Hb|].
  change (written (_ :: _ :: t)) with (written t). simpl fst.
  rewrite Hlen in Hj, Hw. rewrite Hw in Hr |- *.
  destruct (Nat.ltb_spec j k); destruct Hr as [[-> Hr]|[-> Hr]];
    try done; [right|left]; repeat split; (done || lia).
Qed.

(** *** Loading the script *)

Lemma shipped_display_names :
  display_names shipped_heap [VRef 0; VRef 1; VRef 3; VRef 5]%nat
    shipped_names.
Proof.
  unfold display_names, shipped_names.
  repeat (apply List.Forall2_cons;
    [eexists _, _; split; [reflexivity|];
     split; [reflexivity | vm_compute; reflexivity]|]).
  apply List.Forall2_nil.
Qed.

Lemma menu_trace_gui sub i names t :
  menu_trace sub i names t -> Forall (fun ev => is_gui ev = true) t.
Proof. induction 1; by repeat constructor. Qed.

Lemma script_run (s0 : H) :
  exists my_menu_id gf_sub_id s t,
    script qtm (World [] VNone s0 []) =
      (Ok tt,
       World shipped_heap (VRef 6) s
         (flat_map
            (fun i => [Eadd_command (gap_fill_command i);
                       Eset_command_execute_function (gap_fill_command i)
                         (Lambda_gap_fill_def i)])
            (range 10) ++
          Einsert_menu_submenu VNone "My menu" my_menu_id ::
          Einsert_menu_submenu my_menu_id "Gap fill..." gf_sub_id :: t)) /\
    menu_trace gf_sub_id 0 shipped_names t.
Proof.
  unfold script, bind.
  rewrite define_list_of_definitions_run.
  destruct (add_my_commands_run (World shipped_heap (VRef 6) s0 []))
    as [s1 ->].
  match goal with |- context [setup_my_menu qtm ?W] =>
    destruct (setup_my_menu_run W 6%nat [VRef 0; VRef 1; VRef 3; VRef 5]%nat
                shipped_names) as (my_menu_id & gf_sub_id & s & t & -> & Ht);
      [reflexivity | reflexivity | exact shipped_display_names |]
  end.
  by exists my_menu_id, gf_sub_id, s, t.
Qed.

(** X8.  Loading the script succeeds on every host, whatever the host
    answers: the module-level statements leave the seven objects of the
    list of definitions in the store and [list_of_definitions] bound to
    the list, make terminal and menu calls only, and the buttons are
    those of the first [k] of the four shipped definitions.  Each of the
    four definitions has what its method needs, at any copying depth. *)
Theorem script_loads (s0 : H) (n : nat) :
  let run := script qtm (World [] VNone s0 []) in
  run.1 = Ok tt /\
  w_heap run.2 = shipped_heap /\
  list_of_definitions run.2 = VRef 6 /\
  Forall (fun ev => is_gui ev = true) (w_trace run.2) /\
  (exists gf_sub_id k,
     (k <= 4)%nat /\
     buttons (w_trace run.2) =
       button_list gf_sub_id 0 (take k shipped_names)) /\
  Forall
    (fun i => exists d, definition_at run.2 i = Some d /\
                        fits_method (S n) (w_heap run.2) d = true)
    (range 4).
Proof.
  intros run. subst run.
  destruct (script_run s0) as (my_menu_id & gf_sub_id & s & t & -> & Ht).
  cbn [fst snd w_heap list_of_definitions w_trace].
  split; [done|]. split; [done|]. split; [done|]. split; [|split].
  - apply Forall_app. split.
    + vm_compute. by repeat constructor.
    + do 2 (constructor; [done|]). by eapply menu_trace_gui.
  - destruct (menu_trace_prefix _ _ _ _ Ht) as (k & Hk & Hb & _).
    exists gf_sub_id, k. split; [exact Hk|].
    unfold buttons in *. rewrite List.filter_app. exact Hb.
  - unfold range. simpl.
    repeat (constructor;
      [eexists; split;
        [vm_compute; reflexivity | destruct n; vm_compute; reflexivity]|]).
    constructor.
Qed.

End ScriptFacts.

(** ** The claims on concrete runs *)

Local Ltac find_in_list := repeat (first [left; reflexivity | right]).



Lemma no_gaps_nothing_to_fill_witness :
  let w := Run.loaded in
  let run := _gap_fill_def Stub.host Run.depth Run.repr 2 w in
  run = (Ok tt, run.2) /\
  In (Eget_gap_ranges (VInt 1) (Ok [])) (emitted w run.2) /\
  fill_calls (emitted w run.2) = [] /\
  ~ In "- Not all gaps could be filled" (written (emitted w run.2)) /\
  exists d display_name,
    definition_at w 2 = Some d /\
    d !! "display_name" = Some display_name /\
    written (emitted w run.2) =
      ["Applying gap filling action " +:+
       str Run.repr (w_heap run.2) display_name].
Proof.
  intros w run.
  assert (Hrun : run = (Ok tt, run.2)) by (vm_compute; reflexivity).
  assert (Hin : In (Eget_gap_ranges (VInt 1) (Ok [])) (emitted w run.2))
    by (vm_compute; find_in_list).
  split; [exact Hrun|]. split; [exact Hin|].
  exact (no_gaps_nothing_to_fill Stub.host Run.depth Run.repr 2 w run.2
           (Ok tt) (VInt 1) Hrun Hin).
Defined.

(** C10, as stated, fails: the host reports no gap range for the target,
    and the invocation, whose relational definition has no settings,
    raises before the announcement; no message is written at all. *)
Lemma no_gaps_counterexample :
  let w := Run.without_settings "Q_WaistLFront" in
  let run := _gap_fill_def Stub.host Run.depth Run.repr 0 w in
  In (Eget_gap_ranges (VInt 1) (Ok [])) (emitted w run.2) /\
  run.1 = Raise (KeyError "settings") /\
  written (emitted w run.2) = [] /\
  length (written (emitted w run.2)) <> 1%nat.
Proof.
  intros w run. split; [vm_compute; find_in_list|].
  split; [vm_compute; reflexivity|]. split; [vm_compute; reflexivity|].
  vm_compute. discriminate.
Qed.

Lemma commands_beyond_the_list_raise_witness :
  4 <= 5 <= 9 /\
  call Stub.host Run.depth Run.repr (Lambda_gap_fill_def 5) Run.loaded =
    (Raise IndexError, Run.loaded).
Proof.
  assert (Hk : 4 <= 5 <= 9) by lia.
  split; [exact Hk|].
  exact (proj2 (proj2
    (commands_beyond_the_list_raise Stub.host Run.depth Run.repr
       (Stub.State [] 0) 5 Hk))).
Defined.


Lemma names_are_resolved_anew_witness :
  let w := Run.loaded in
  let prior := [Lambda_gap_fill_def 2; Lambda_gap_fill_def 0] in
  let w1 := run_commands Stub.host Run.depth Run.repr prior w in
  let run := _gap_fill_def Stub.host Run.depth Run.repr 3 w1 in
  exists d,
    definition_at w 3 = Some d /\
    d !! "target" = Some (VStr "Q_WaistRFront") /\
    d !! "method" = Some (VStr "relational") /\
    find_names (emitted w (add_my_commands Stub.host w).2) = [] /\
    find_names (emitted w (setup_my_menu Stub.host w).2) = [] /\
    (exists r rest,
       emitted w1 run.2 = Efind_trajectory (VStr "Q_WaistRFront") r :: rest) /\
    (run.1 = Ok tt ->
     forall l0 ds,
       d !! "settings" = Some (VRef l0) ->
       w_heap w !! l0 = Some (ODict ds) ->
       well_formed Run.depth (w_heap w) (VRef l0) = true ->
       exists names,
         find_names (emitted w1 run.2) = VStr "Q_WaistRFront" :: names /\
         Forall2
           (copy_of (pred Run.depth) (S (length (w_heap w1)))
              (w_heap w) (w_heap run.2))
           (omap (fun k => ds !! k) ["origin"; "line"; "plane"]) names).
Proof.
  intros w prior w1 run.
  match eval vm_compute in (definition_at w 3) with
  | Some ?d => exists d
  end.
  match goal with |- ?A /\ ?B /\ ?C /\ _ =>
    assert (Hat : A) by (vm_compute; reflexivity);
    assert (Htg : B) by (vm_compute; reflexivity);
    assert (Hm : C) by (vm_compute; reflexivity)
  end.
  exact (conj Hat (conj Htg (conj Hm
    (names_are_resolved_anew Stub.host Run.depth Run.repr w prior 3 _
       (VStr "Q_WaistRFront") (VStr "relational") Hat Htg Hm)))).
Defined.

Lemma unchecked_definitions_raise_witness :
  let w := Run.without_settings "Q_WaistBack" in
  let run := _gap_fill_def Stub.host Run.depth Run.repr 0 w in
  exists d,
    definition_at w 0 = Some d /\
    d !! "target" = Some (VStr "Q_WaistBack") /\
    d !! "method" = Some (VStr "relational") /\
    d !! "settings" = None /\
    (exists e, run.1 = Raise e) /\
    fill_calls (emitted w run.2) = [].
Proof.
  intros w run.
  match eval vm_compute in (definition_at w 0) with
  | Some ?d => exists d
  end.
  match goal with |- ?A /\ ?B /\ ?C /\ ?D /\ _ =>
    assert (Hat : A) by (vm_compute; reflexivity);
    assert (Htg : B) by (vm_compute; reflexivity);
    assert (Hm : C) by (vm_compute; reflexivity);
    assert (Hs : D) by (vm_compute; reflexivity)
  end.
  refine (conj Hat (conj Htg (conj Hm (conj Hs _)))).
  destruct (proj1 (unchecked_definitions_raise Stub.host Run.depth Run.repr
    0 w _ (VStr "Q_WaistBack") Hat Htg) (VStr "relational") Hm eq_refl Hs)
    as (He & Hf & _).
  exact (conj He Hf).
Defined.

Lemma setup_my_menu_builds_the_menu_witness :
  let w := Run.registered in
  let items := [VRef 0; VRef 1; VRef 3; VRef 5]%nat in
  let names :=
    [VStr "Q_WaistBack (polynomial)"; VStr "Q_WaistBack (kinematic)";
     VStr "Q_WaistLFront (rel): WaistBack-WaistRFront-WaistL";
     VStr "Q_WaistRFront (rel): WaistBack-WaistLFront-WaistR"] in
  let run := setup_my_menu Stub.host w in
  list_of_definitions w = VRef 6 /\
  w_heap w !! 6%nat = Some (OList items) /\
  display_names (w_heap w) items names /\
  run.1 = Ok tt /\
  exists my_menu_id gf_sub_id t,
    emitted w run.2 =
      Einsert_menu_submenu VNone "My menu" my_menu_id ::
      Einsert_menu_submenu my_menu_id "Gap fill..." gf_sub_id :: t /\
    menu_trace gf_sub_id 0 names t /\
    ((forall kind cmds, In (Eget_commands kind cmds) t ->
        cmds = ten_commands) ->
     buttons t = button_list gf_sub_id 0 (take 10 names) /\
     written t =
       if (10 <? length names)%nat then [exceeds_maximum 10] else []).
Proof.
  intros w items names run.
  assert (Hdefs : list_of_definitions w = VRef 6)
    by (vm_compute; reflexivity).
  assert (HL : w_heap w !! 6%nat = Some (OList items))
    by (vm_compute; reflexivity).
  assert (Hnames : display_names (w_heap w) items names).
  { subst items names.
    repeat (apply List.Forall2_cons; [eexists _, _;
      (split; [reflexivity|]); split; vm_compute; reflexivity|]).
    apply List.Forall2_nil. }
  exact (conj Hdefs (conj HL (conj Hnames
    (setup_my_menu_builds_the_menu Stub.host w 6%nat items names
       Hdefs HL Hnames)))).
Defined.

(** ** Runs of the script against the small host, for reference *)

Example load_trace :
  buttons (w_trace Run.loaded) =
    button_list (VInt 1) 0
      [VStr "Q_WaistBack (polynomial)"; VStr "Q_WaistBack (kinematic)";
       VStr "Q_WaistLFront (rel): WaistBack-WaistRFront-WaistL";
       VStr "Q_WaistRFront (rel): WaistBack-WaistLFront-WaistR"] /\
  written (w_trace Run.loaded) = [].
Proof. split; vm_compute; reflexivity. Qed.

Example polynomial_run :
  let run := _gap_fill_def Stub.host Run.depth Run.repr 0 Run.loaded in
  run.1 = Ok tt /\
  emitted Run.loaded run.2 =
    [Efind_trajectory (VStr "Q_WaistBack") (Ok (VInt 0));
     Eget_gap_ranges (VInt 0)
       (Ok [Build_gap_range 10 20; Build_gap_range 35 40]);
     Ewrite "Applying gap filling action Q_WaistBack (polynomial)";
     Efill_trajectory (VInt 0) (VStr "polynomial") (Build_gap_range 10 20)
       VNone (Raise (RuntimeError "gap too long"));
     Efill_trajectory (VInt 0) (VStr "polynomial") (Build_gap_range 35 40)
       VNone (Ok tt);
     Ewrite "- Not all gaps could be filled"].
Proof. split; vm_compute; reflexivity. Qed.

Example virtual_run :
  let w := Run.with_offset in
  let run := _gap_fill_def Stub.host Run.depth Run.repr 0 w in
  run.1 = Ok tt /\
  emitted w run.2 =
    [Efind_trajectory (VStr "Q_WaistRFront") (Ok (VInt 2));
     Eget_gap_ranges (VInt 2) (Ok [Build_gap_range 7 9]);
     Efind_trajectory (VStr "Q_WaistBack") (Ok (VInt 0));
     Efind_trajectory (VStr "Q_WaistL") (Ok (VInt 3));
     Ewrite "Applying gap filling action Q_WaistRFront (virtual)";
     Efill_trajectory (VInt 2) (VStr "virtual") (Build_gap_range 7 9)
       (VRef 4) (Ok tt)] /\
  (* the dict the host received *)
  w_heap run.2 !! 4%nat =
    Some (ODict (list_to_map
      [("origin", VInt 0); ("line", VInt 3); ("offset", VRef 5);
       ("is_rigid_body", VBool true)])) /\
  w_heap run.2 !! 5%nat =
    Some (OList [VFloat (Qmake 0 1); VFloat (Qmake 21 2); VFloat (Qmake 0 1)]) /\
  (* the dict of the definition *)
  w_heap run.2 !! 1%nat =
    Some (ODict (list_to_map
      [("origin", VStr "Q_WaistBack"); ("line", VStr "Q_WaistL");
       ("offset", VRef 0); ("is_rigid_body", VBool true)])).
Proof. repeat split; vm_compute; reflexivity. Qed.

Example odd_target_run :
  let w := Run.with_odd_target in
  let run := _gap_fill_def Stub.host Run.depth Run.repr 0 w in
  run.1 = Raise TypeError /\
  emitted w run.2 = [Efind_trajectory (VInt 7) (Raise TypeError)].
Proof. split; vm_compute; reflexivity. Qed.

Example unknown_target_run :
  let w := Run.without_settings "Nowhere" in
  let run := _gap_fill_def Stub.host Run.depth Run.repr 0 w in
  run.1 = Raise (RuntimeError "no such trajectory") /\
  emitted w run.2 =
    [Efind_trajectory (VStr "Nowhere") (Ok VNone);
     Eget_gap_ranges VNone (Raise (RuntimeError "no such trajectory"))].
Proof. split; vm_compute; reflexivity. Qed.

Example eleven_definitions :
  let w := Run.crowded 11 in
  let run := setup_my_menu Stub.host w in
  run.1 = Ok tt /\
  length (buttons (emitted w run.2)) = 10%nat /\
  written (emitted w run.2) = [exceeds_maximum 10].
Proof. repeat split; vm_compute; reflexivity. Qed.


(** ** The further properties on concrete runs *)

Lemma gap_fill_index_bounds_witness :
  let w := Run.loaded in
  let items := [VRef 0; VRef 1; VRef 3; VRef 5]%nat in
  let k := -1 in
  list_of_definitions w = VRef 6 /\
  w_heap w !! 6%nat = Some (OList items) /\
  let n := Z.of_nat (length items) in
  (n <= k \/ k < - n ->
   _gap_fill_def Stub.host Run.depth Run.repr k w = (Raise IndexError, w)) /\
  (- n <= k < 0 ->
   _gap_fill_def Stub.host Run.depth Run.repr k w =
     _gap_fill_def Stub.host Run.depth Run.repr (n + k) w).
Proof.
  intros w items k.
  assert (Hdefs : list_of_definitions w = VRef 6)
    by (vm_compute; reflexivity).
  assert (HL : w_heap w !! 6%nat = Some (OList items))
    by (vm_compute; reflexivity).
  exact (conj Hdefs (conj HL
    (gap_fill_index_bounds Stub.host Run.depth Run.repr w k 6%nat items
       Hdefs HL))).
Defined.

Lemma fitting_definition_fails_only_by_host_witness :
  let w := Run.loaded in
  exists d,
    definition_at w 2 = Some d /\
    fits_method Run.depth (w_heap w) d = true /\
    let run := _gap_fill_def Stub.host Run.depth Run.repr 2 w in
    run.1 = Ok tt \/
    exists e before ev,
      run.1 = Raise e /\ emitted w run.2 = before ++ [ev] /\
      raised_by ev = Some e.
Proof.
  intros w.
  match eval vm_compute in (definition_at w 2) with
  | Some ?d => exists d
  end.
  match goal with |- ?A /\ ?B /\ _ =>
    assert (Hat : A) by (vm_compute; reflexivity);
    assert (Hfit : B) by (vm_compute; reflexivity)
  end.
  exact (conj Hat (conj Hfit
    (fitting_definition_fails_only_by_host Stub.host Run.depth Run.repr 2 w _
       Hat Hfit))).
Defined.

Lemma buttons_are_a_prefix_witness :
  let w := Run.registered in
  let items := [VRef 0; VRef 1; VRef 3; VRef 5]%nat in
  let names := shipped_names in
  list_of_definitions w = VRef 6 /\
  w_heap w !! 6%nat = Some (OList items) /\
  display_names (w_heap w) items names /\
  let t := emitted w (setup_my_menu Stub.host w).2 in
  exists my_menu_id gf_sub_id k,
    (k <= length names)%nat /\
    take 2 t =
      [Einsert_menu_submenu VNone "My menu" my_menu_id;
       Einsert_menu_submenu my_menu_id "Gap fill..." gf_sub_id] /\
    buttons t = button_list gf_sub_id 0 (take k names) /\
    written t =
      (if (k <? length names)%nat
       then [exceeds_maximum (Z.of_nat k)] else []) /\
    length (reported_commands t) =
      (k + if (k <? length names)%nat then 1 else 0)%nat.
Proof.
  intros w items names.
  assert (Hdefs : list_of_definitions w = VRef 6)
    by (vm_compute; reflexivity).
  assert (HL : w_heap w !! 6%nat = Some (OList items))
    by (vm_compute; reflexivity).
  assert (Hnames : display_names (w_heap w) items names).
  { subst items names.
    repeat (apply List.Forall2_cons; [eexists _, _;
      (split; [reflexivity|]); split; vm_compute; reflexivity|]).
    apply List.Forall2_nil. }
  exact (conj Hdefs (conj HL (conj Hnames
    (buttons_are_a_prefix Stub.host w 6%nat items names Hdefs HL Hnames)))).
Defined.

Lemma commands_then_menu_witness :
  let w := More.unregistered 11 in
  let items := List.map VRef (seq 0 11) in
  let names := replicate 11 (VStr "Q_WaistBack (again)") in
  reports_commands Stub.host Stub.user_commands /\
  Stub.user_commands (w_host w) = [] /\
  list_of_definitions w = VRef 11 /\
  w_heap w !! 11%nat = Some (OList items) /\
  display_names (w_heap w) items names /\
  let run :=
    bind (add_my_commands Stub.host) (fun _ => setup_my_menu Stub.host) w in
  run.1 = Ok tt /\
  exists gf_sub_id,
    buttons (emitted w run.2) = button_list gf_sub_id 0 (take 10 names) /\
    written (emitted w run.2) =
      if (10 <? length names)%nat then [exceeds_maximum 10] else [].
Proof.
  intros w items names.
  assert (Hrep : reports_commands Stub.host Stub.user_commands)
    by (constructor; intros; try split; reflexivity).
  assert (Hnone : Stub.user_commands (w_host w) = [])
    by (vm_compute; reflexivity).
  assert (Hdefs : list_of_definitions w = VRef 11)
    by (vm_compute; reflexivity).
  assert (HL : w_heap w !! 11%nat = Some (OList items))
    by (vm_compute; reflexivity).
  assert (Hnames : display_names (w_heap w) items names).
  { subst items names.
    repeat (apply List.Forall2_cons; [eexists _, _;
      (split; [reflexivity|]); split; vm_compute; reflexivity|]).
    apply List.Forall2_nil. }
  exact (conj Hrep (conj Hnone (conj Hdefs (conj HL (conj Hnames
    (commands_then_menu Stub.host Stub.user_commands w 11%nat items names
       Hrep Hnone Hdefs HL Hnames)))))).
Defined.

Lemma nameless_definition_stops_the_menu_witness :
  let w := More.nameless_second in
  let items := [VRef 0; VRef 1; VRef 2]%nat in
  let k := 1%nat in
  let bad := VRef 1 in
  let names := [VStr "first"] in
  let e := KeyError "display_name" in
  list_of_definitions w = VRef 3 /\
  w_heap w !! 3%nat = Some (OList items) /\
  items !! k = Some bad /\
  getitem (w_heap w) bad "display_name" = Raise e /\
  display_names (w_heap w) (take k items) names /\
  let run := setup_my_menu Stub.host w in
  exists my_menu_id gf_sub_id j,
    take 2 (emitted w run.2) =
      [Einsert_menu_submenu VNone "My menu" my_menu_id;
       Einsert_menu_submenu my_menu_id "Gap fill..." gf_sub_id] /\
    buttons (emitted w run.2) = button_list gf_sub_id 0 (take j names) /\
    (run.1 = Raise e /\ j = k /\ written (emitted w run.2) = [] \/
     run.1 = Ok tt /\ (j < k)%nat /\
     written (emitted w run.2) = [exceeds_maximum (Z.of_nat j)]).
Proof.
  intros w items k bad names e.
  assert (Hdefs : list_of_definitions w = VRef 3)
    by (vm_compute; reflexivity).
  assert (HL : w_heap w !! 3%nat = Some (OList items))
    by (vm_compute; reflexivity).
  assert (Hbad : items !! k = Some bad) by reflexivity.
  assert (Hraise : getitem (w_heap w) bad "display_name" = Raise e)
    by (vm_compute; reflexivity).
  assert (Hnames : display_names (w_heap w) (take k items) names).
  { subst items names k. simpl take.
    repeat (apply List.Forall2_cons; [eexists _, _;
      (split; [reflexivity|]); split; vm_compute; reflexivity|]).
    apply List.Forall2_nil. }
  exact (conj Hdefs (conj HL (conj Hbad (conj Hraise (conj Hnames
    (nameless_definition_stops_the_menu Stub.host w 3%nat items k bad names e
       Hdefs HL Hbad Hraise Hnames)))))).
Defined.


Lemma only_conversion_allocates_witness :
  let w := Run.loaded in
  w_heap (_gap_fill_def Stub.host Run.depth Run.repr 0 w).2 = w_heap w /\
  (length (w_heap w) <
   length (w_heap (_gap_fill_def Stub.host Run.depth Run.repr 2 w).2))%nat.
Proof.
  intros w. split.
  - apply (proj1 (only_conversion_allocates Stub.host Run.depth Run.repr 0 w)).
    intros d method Hat Hm.
    vm_compute in Hat. injection Hat as <-.
    vm_compute in Hm. injection Hm as <-. reflexivity.
  - eapply (proj2 (only_conversion_allocates Stub.host Run.depth Run.repr 2 w));
      [vm_compute; reflexivity | vm_compute; reflexivity
      | vm_compute; reflexivity | reflexivity].
Defined.
